(** * goimpl: stub generation for Go interfaces

    A shallow embedding of [goimpl.go] (package [goimpl]): the signature
    comparator ([Diff], [diff]), the argument namer ([First], [Short],
    [Method]), the reconciliation against an existing type
    ([handleExisting]), the stub template ([templateS]) and the driver
    [Generate].

    Conventions.
    - Go strings are [string]; a rune is an [ascii] character, so the
      model covers ASCII text ([unicode.IsLetter] and [unicode.ToLower]
      are their restrictions to that range).
    - A [reflect.Type] is the record of what the program reads from it.
    - [map[string]struct{}] is a [gset string], [map[string]string] a
      [gmap string string]; a map-typed field that may be [nil] is an
      [option].
    - The parser, the printer, [imports.Process] and the [io.Writer] are
      collaborators outside the package: they are Section variables. *)

From Stdlib Require Import String Ascii List Arith Lia Permutation.
From stdpp Require Import base decidable option list strings pretty gmap fin_maps fin_sets.

Local Open Scope string_scope.
Local Open Scope list_scope.
Set Warnings "-register-all,-clear-no-such-hyp,-level-tolerance".

(** ** Strings and runes *)

Definition nl : string := String (ascii_of_nat 10) "".
Definition tab : string := String (ascii_of_nat 9) "".
Definition bq : string := String (ascii_of_nat 96) "".

(** [[]rune(s)] *)
Fixpoint runes (s : string) : list ascii :=
  match s with
  | EmptyString => []
  | String c r => c :: runes r
  end.

(** [string(rs)] *)
Fixpoint of_runes (rs : list ascii) : string :=
  match rs with
  | [] => ""
  | c :: r => String c (of_runes r)
  end.

(** [unicode.IsLetter], on ASCII. *)
Definition IsLetter (r : ascii) : bool :=
  let n := nat_of_ascii r in
  (Nat.leb 65 n && Nat.leb n 90) || (Nat.leb 97 n && Nat.leb n 122).

(** [unicode.ToLower], on ASCII. *)
Definition ToLower (r : ascii) : ascii :=
  let n := nat_of_ascii r in
  if Nat.leb 65 n && Nat.leb n 90 then ascii_of_nat (n + 32) else r.

(** [strings.Split(s, sep)] for a one-character separator: the pieces
    between the separators, one more than there are separators. *)
Fixpoint Split (s : string) (sep : ascii) : list string :=
  match s with
  | EmptyString => [""]
  | String c r =>
      if decide (c = sep) then "" :: Split r sep
      else match Split r sep with
           | h :: t => String c h :: t
           | [] => [String c ""]
           end
  end.

(** [strings.Join(ds, sep)] *)
Fixpoint Join (ds : list string) (sep : string) : string :=
  match ds with
  | [] => ""
  | [d] => d
  | d :: ds' => d +:+ sep +:+ Join ds' sep
  end.

(** [parts[len(parts)-1]], for a non-empty [parts]. *)
Definition lastPart (parts : list string) : string := List.last parts "".

(** ** Type descriptors: what the program reads from a [reflect.Type] *)

Inductive ChanDir := RecvDir | SendDir | BothDir.

(** [reflect.ChanDir.String] *)
Definition ChanDir_String (d : ChanDir) : string :=
  match d with
  | RecvDir => "<-chan"
  | SendDir => "chan<-"
  | BothDir => "chan"
  end.

(** The kinds the program dispatches on, with the components it reads;
    every other kind is [KOther]. *)
Inductive KindOf (T : Type) : Type :=
| KPtr (elem : T)
| KSlice (elem : T)
| KArray (len : nat) (elem : T)
| KMap (key elem : T)
| KChan (dir : ChanDir) (elem : T)
| KFunc (ins outs : list T)
| KOther.
Arguments KPtr {T} elem.
Arguments KSlice {T} elem.
Arguments KArray {T} len elem.
Arguments KMap {T} key elem.
Arguments KChan {T} dir elem.
Arguments KFunc {T} ins outs.
Arguments KOther {T}.

(** [reflect.Method]: the name and the function type's inputs and
    outputs ([Type.In], [Type.Out]). *)
Record RMethodOf (T : Type) : Type := RMethod {
  mName : string;
  mIn : list T;
  mOut : list T
}.
Arguments RMethod {T} mName mIn mOut.
Arguments mName {T} r.
Arguments mIn {T} r.
Arguments mOut {T} r.

Inductive rtype : Type := RType {
  tString : string;                  (* String() *)
  tName : string;                    (* Name() *)
  tPkgPath : string;                 (* PkgPath() *)
  tError : bool;                     (* ConvertibleTo(errorType) *)
  tCtx : bool;                       (* ConvertibleTo(ctxType) *)
  tMethods : list (RMethodOf rtype); (* NumMethod(), Method(i) *)
  tKind : KindOf rtype               (* Kind(), Elem(), Key(), Len(), ... *)
}.

(** [packageAndName] *)
Definition packageAndName (t : rtype) : string * string :=
  let pkgPath := tPkgPath t in
  if decide (pkgPath = "") then ("", tString t)
  else
    let parts := Split (tString t) "." in
    match parts with
    | [] => ("", "")
    | p0 :: rest =>
        (p0, match rest with p1 :: _ => p1 | [] => "" end)
    end.

(** ** The argument namer *)

(** [Clean] keeps only letters. *)
Definition Clean (s : string) : string := of_runes (List.filter IsLetter (runes s)).

(** [lowerName] *)
Definition lowerName (s : string) : string * string :=
  let parts := Split s "." in
  match parts with
  | [] => ("u", "")
  | _ =>
      let clean := Clean (lastPart parts) in
      (of_runes (List.map ToLower (runes clean)), clean)
  end.

(** [First] returns a first letter of s in lowercase. *)
Definition First (s : string) : string :=
  let parts := Split s "." in
  match parts with
  | [] => "u"
  | _ =>
      match List.find IsLetter (runes (lastPart parts)) with
      | Some r => String (ToLower r) ""
      | None => "z"
      end
  end.

(** The loop [for tt.Kind() == reflect.Ptr || tt.Kind() == reflect.Slice]. *)
Fixpoint stripPtrSlice (t : rtype) : rtype :=
  match t with
  | RType _ _ _ _ _ _ k =>
      match k with
      | KPtr e => stripPtrSlice e
      | KSlice e => stripPtrSlice e
      | _ => t
      end
  end.

(** A scope: the names taken so far in one method ([cur]). *)
Abbreviation scope := (gset string).

(** The names the uniqueness loop of [Short] tries: [f], then
    [fmt.Sprintf("%s%d", f, c)] for [c = 1, 2, ...]. *)
Definition candidate (f : string) (c : nat) : string :=
  match c with
  | O => f
  | S _ => f +:+ pretty c
  end.

(** The loop [for c := 1; ; c++] of [Short]: [name] is the name under
    test and [c] the next suffix.  The Go loop has no bound; [fuel]
    bounds the number of tests, and [uniqueName_least] shows that
    [S (size cur)] tests always reach a free name. *)
Fixpoint uniqueName (f : string) (cur : scope) (fuel : nat) (name : string) (c : nat) : string :=
  match fuel with
  | O => name
  | S k =>
      if decide (name ∈ cur) then uniqueName f cur k (f +:+ pretty c) (S c)
      else name
  end.

(** The candidate of [Short] before the uniqueness loop. *)
Definition shortCandidate (t : rtype) : string :=
  let tt := stripPtrSlice t in
  let '(pkg, name) := packageAndName tt in
  let f := First name in
  if tError t then "err"
  else if tCtx t then "ctx"
  else
    let '(n, clean) := lowerName name in
    if Nat.leb (String.length n) 3 && negb (String.eqb n clean) && negb (String.eqb n pkg)
    then n else f.

(** [Short] returns a unique (in the current scope) name for the argument
    of type t, and the scope with that name reserved. *)
Definition Short (t : rtype) (cur : scope) : string * scope :=
  let f := shortCandidate t in
  let name := uniqueName f cur (S (size cur)) f 1 in
  (name, {[name]} ∪ cur).

(** [Arg] describes an argument of a method: either in or out. *)
Record Arg := mkArg {
  aType : rtype;
  ArgName : string;
  Sep : string
}.

Record Method := mkMethod {
  mMethod : RMethodOf rtype;  (* the embedded reflect.Method *)
  Inputs : list Arg;
  Outputs : list Arg;
  Comment : string
}.

(** The promoted field [Name] of the embedded [reflect.Method]. *)
Definition Name (m : Method) : string := mName (mMethod m).

(** One of the two loops of [Method]: names the types in order,
    threading the scope; [Sep] is empty on the last one. *)
Fixpoint nameArgs (ts : list rtype) (cur : scope) : list Arg * scope :=
  match ts with
  | [] => ([], cur)
  | t :: ts' =>
      let sep := match ts' with [] => "" | _ => ", " end in
      let '(n, cur1) := Short t cur in
      let '(args, cur2) := nameArgs ts' cur1 in
      (mkArg t n sep :: args, cur2)
  end.

(** [Method] populates the Method struct; recName is a name of the
    receiver in the generated code. *)
Definition MethodOf (recName : string) (ft : RMethodOf rtype) : Method :=
  let cur : scope := {[recName]} in
  let '(inp, cur1) := nameArgs (mIn ft) cur in
  let '(out, _) := nameArgs (mOut ft) cur1 in
  mkMethod ft inp out "".

(** ** Generation options *)

Record GenOpts := mkGenOpts {
  PkgName : string;
  ImplName : string;
  Inter : rtype;
  Existing : option rtype;      (* the dynamic type of the value; [None] is nil *)
  NoNamedReturnValues : bool;
  MethodBlacklist : option (gset string);
  Comments : option (gmap string string);
  NoGoImports : bool;
  Extra : list string
}.

Definition setPkgName (v : string) (o : GenOpts) : GenOpts :=
  mkGenOpts v (ImplName o) (Inter o) (Existing o) (NoNamedReturnValues o)
            (MethodBlacklist o) (Comments o) (NoGoImports o) (Extra o).
Definition setImplName (v : string) (o : GenOpts) : GenOpts :=
  mkGenOpts (PkgName o) v (Inter o) (Existing o) (NoNamedReturnValues o)
            (MethodBlacklist o) (Comments o) (NoGoImports o) (Extra o).
Definition setMethodBlacklist (v : option (gset string)) (o : GenOpts) : GenOpts :=
  mkGenOpts (PkgName o) (ImplName o) (Inter o) (Existing o) (NoNamedReturnValues o)
            v (Comments o) (NoGoImports o) (Extra o).
Definition setComments (v : option (gmap string string)) (o : GenOpts) : GenOpts :=
  mkGenOpts (PkgName o) (ImplName o) (Inter o) (Existing o) (NoNamedReturnValues o)
            (MethodBlacklist o) v (NoGoImports o) (Extra o).

(** Reading a Go map: a nil map reads as an empty one. *)
Definition blacklisted (o : GenOpts) (name : string) : bool :=
  match MethodBlacklist o with
  | Some bl => bool_decide (name ∈ bl)
  | None => false
  end.
Definition commentOf (o : GenOpts) (name : string) : option string :=
  match Comments o with
  | Some cm => cm !! name
  | None => None
  end.

Definition withComment (c : string) (m : Method) : Method :=
  mkMethod (mMethod m) (Inputs m) (Outputs m) c.
Definition withInputs (i : list Arg) (m : Method) : Method :=
  mkMethod (mMethod m) i (Outputs m) (Comment m).

(** [Methods] populates a list of methods for a given reflect type. *)
Definition Methods (opts : GenOpts) (it : rtype) : list Method :=
  let rec := First (ImplName opts) in
  List.fold_left
    (fun m ft =>
       let name := mName ft in
       if blacklisted opts name then m
       else
         let mtd := MethodOf rec ft in
         let mtd := match commentOf opts name with
                    | Some c => withComment c mtd
                    | None => mtd
                    end in
         m ++ [mtd])
    (tMethods it) [].

(** ** The signature comparator *)

(** The loop of [diff] over the indices of [a], from index [i] on. *)
Fixpoint diffFrom (n : string) (i : nat) (a b : list Arg) : list string :=
  match a, b with
  | x :: a', y :: b' =>
      let rest := diffFrom n (S i) a' b' in
      if decide (tString (aType x) ≠ tString (aType y))
      then (n +:+ "s[" +:+ pretty i +:+ "]: had " +:+ bq +:+ tString (aType x) +:+ bq
              +:+ " want " +:+ bq +:+ tString (aType y) +:+ bq) :: rest
      else rest
  | _, _ => []
  end.

Definition diff (n : string) (a b : list Arg) : string :=
  if decide (length a ≠ length b) then
    "number of " +:+ n +:+ "s: had " +:+ pretty (length a) +:+ ", want " +:+ pretty (length b)
  else Join (diffFrom n 0 a b) "; ".

(** [Diff] returns an empty string if the methods have same signature,
    a description of the diff otherwise. *)
Definition Diff (m other : Method) : string :=
  if decide (Name m ≠ Name other) then
    "names are different: " +:+ Name m +:+ " != " +:+ Name other
  else
    let a := diff "input" (Inputs m) (Inputs other) in
    let b := diff "output" (Outputs m) (Outputs other) in
    if decide (a ≠ "" ∧ b ≠ "") then a +:+ "; " +:+ b
    else a +:+ b.

(** [toMap]: a later method of the same name replaces an earlier one. *)
Definition toMap (m : list Method) : gmap string Method :=
  List.fold_left (fun r x => <[Name x := x]> r) m ∅.

(** ** Reconciliation with an existing type *)

(** How a call ends: normally ([Ret]), with a Go [error] ([Err]), or in
    a run-time panic ([Panic]). *)
Inductive res (A : Type) : Type :=
| Ret (a : A)
| Err (e : string)
| Panic (p : string).
Arguments Ret {A} a.
Arguments Err {A} e.
Arguments Panic {A} p.

#[global] Instance res_bind : MBind res := fun A B k x =>
  match x with
  | Ret a => k a
  | Err e => Err e
  | Panic p => Panic p
  end.

(** [em[i].Inputs = mtd.Inputs[1:]] for every [i]: the slice expression
    panics on a method without inputs. *)
Fixpoint stripReceiver (em : list Method) : res (list Method) :=
  match em with
  | [] => Ret []
  | mtd :: rest =>
      match Inputs mtd with
      | [] => Panic "slice bounds out of range"
      | _ :: ins =>
          rest' ← stripReceiver rest;
          Ret (withInputs ins mtd :: rest')
      end
  end.

(** [opts.Comments[k] = v]; an assignment to an entry of a nil map panics. *)
Definition assignComment (k v : string) (opts : GenOpts) : res GenOpts :=
  match Comments opts with
  | Some cm => Ret (setComments (Some (<[k := v]> cm)) opts)
  | None => Panic "assignment to entry in nil map"
  end.

(** [opts.MethodBlacklist[k] = struct{}{}] *)
Definition assignBlacklist (k : string) (opts : GenOpts) : res GenOpts :=
  match MethodBlacklist opts with
  | Some bl => Ret (setMethodBlacklist (Some ({[k]} ∪ bl)) opts)
  | None => Panic "assignment to entry in nil map"
  end.

(** The body of the loop [for k, v := range rMap] of [handleExisting]. *)
Definition reconcileOne (eMap : gmap string Method) (k : string) (v : Method)
    (opts : GenOpts) : res GenOpts :=
  match eMap !! Name v with
  | None => Ret opts
  | Some w =>
      let d := Diff w v in
      if decide (d ≠ "") then
        let comm := default "" (commentOf opts k) in
        let comm := if decide (comm ≠ "") then comm +:+ " " else comm in
        assignComment k (comm +:+ d) opts
      else
        (* Method exists and has a right signature. *)
        assignBlacklist k opts
  end.

(** The loop over the entries of [rMap], in the order [entries]. *)
Fixpoint reconcile (eMap : gmap string Method) (entries : list (string * Method))
    (opts : GenOpts) : res GenOpts :=
  match entries with
  | [] => Ret opts
  | (k, v) :: rest =>
      opts' ← reconcileOne eMap k v opts;
      reconcile eMap rest opts'
  end.

(** [handleExisting] returns the options as it leaves them and how it
    ended.  Go leaves the order of [range rMap] open; the model takes
    the order of [map_to_list], and [reconcile_Permutation] shows that
    the order does not matter.  After a panic the options are those
    of the call. *)
Definition handleExisting (opts : GenOpts) : GenOpts * res unit :=
  match Existing opts with
  | None => (opts, Ret tt)
  | Some et =>
      if decide (ImplName opts ≠ "") then
        (opts, Err "only one of ImplName and existing should be set.")
      else if decide (PkgName opts ≠ "") then
        (opts, Err "only one of PkgName and existing should be set.")
      else
        match stripReceiver (Methods opts et) with
        | Ret em =>
            let mtds := Methods opts (Inter opts) in
            let eMap := toMap em in
            let rMap := toMap mtds in
            match reconcile eMap (map_to_list rMap) opts with
            | Ret opts1 =>
                match tKind et with
                | KPtr elem =>
                    let '(pkg, name) := packageAndName elem in
                    (setImplName ("*" +:+ name) (setPkgName pkg opts1), Ret tt)
                | _ =>
                    let '(pkg, name) := packageAndName et in
                    (setImplName name (setPkgName pkg opts1), Ret tt)
                end
            | Err e => (opts, Err e)
            | Panic p => (opts, Panic p)
            end
        | Err e => (opts, Err e)
        | Panic p => (opts, Panic p)
        end
  end.

(** ** The stub template *)

Definition dq : string := String (ascii_of_nat 34) "".

(** [GetName] of a type. *)
Fixpoint GetName (pkgName : string) (t : rtype) : string :=
  match t with
  | RType str name pkgPath _ _ _ k =>
      if decide (name ≠ "") then
        let pkg := fst (packageAndName t) in
        (* Handle the case the type is in the package we are generating code for. *)
        if decide (pkg = "" ∨ pkg = pkgName) then name
        else pkg +:+ "." +:+ name
      else
        match k with
        | KPtr e => "*" +:+ GetName pkgName e
        | KMap key e => "map[" +:+ GetName pkgName key +:+ "]" +:+ GetName pkgName e
        | KSlice e => "[]" +:+ GetName pkgName e
        | KChan d e => ChanDir_String d +:+ " " +:+ GetName pkgName e
        | KArray n e => "[" +:+ pretty n +:+ "]" +:+ GetName pkgName e
        | KFunc ins outs =>
            let inputs := List.map (GetName pkgName) ins in
            let outputs := List.map (GetName pkgName) outs in
            let out := Join outputs ", " in
            let out := if Nat.ltb 1 (length outputs) then "(" +:+ out +:+ ")" else out in
            "func (" +:+ Join inputs ", " +:+ ") " +:+ out
        | KOther => str
        end
  end.

Fixpoint concat (l : list string) : string :=
  match l with
  | [] => ""
  | s :: r => s +:+ concat r
  end.

(** [{{range .Inputs}} {{.ArgName}} {{$R.GetName .}} {{.Sep}} {{end}}] *)
Definition renderInput (opts : GenOpts) (a : Arg) : string :=
  " " +:+ ArgName a +:+ " " +:+ GetName (PkgName opts) (aType a) +:+ " " +:+ Sep a +:+ " ".

(** [{{range .Outputs}} {{if not $R.NoNamedReturnValues}} {{.ArgName}} {{end}} {{$R.GetName .}} {{.Sep}} {{end}}] *)
Definition renderOutput (opts : GenOpts) (a : Arg) : string :=
  " " +:+ (if negb (NoNamedReturnValues opts) then " " +:+ ArgName a +:+ " " else "")
      +:+ " " +:+ GetName (PkgName opts) (aType a) +:+ " " +:+ Sep a +:+ " ".

(** The body every stub gets: [panic(errors.New("<ImplName>.<Name> not implemented")) }]. *)
Definition stubBody (implName name : string) : string :=
  "panic(errors.New(" +:+ dq +:+ implName +:+ "." +:+ name +:+ " not implemented" +:+ dq +:+ ")) }".

(** The text of one round of [{{range $R.Methods .Inter}} ... {{end}}]. *)
Definition renderMethod (opts : GenOpts) (rec : string) (m : Method) : string :=
  nl +:+ (if decide (Comment m ≠ "") then "// " +:+ Comment m +:+ " " else "") +:+ nl
     +:+ "func (" +:+ rec +:+ " " +:+ ImplName opts +:+ ") " +:+ Name m +:+ " ("
     +:+ concat (List.map (renderInput opts) (Inputs m)) +:+ ") ("
     +:+ concat (List.map (renderOutput opts) (Outputs m)) +:+ ") {" +:+ nl
     +:+ tab +:+ stubBody (ImplName opts) (Name m) +:+ nl.

(** The text before the methods. *)
Definition renderHeader (opts : GenOpts) : string :=
  nl +:+ nl +:+ "package " +:+ PkgName opts +:+ nl +:+ nl
     +:+ "import (" +:+ nl +:+ tab +:+ dq +:+ "errors" +:+ dq +:+ nl +:+ tab
     +:+ concat (List.map (fun e => dq +:+ e +:+ dq +:+ nl +:+ tab) (Extra opts))
     +:+ ")" +:+ nl +:+ "type " +:+ Clean (ImplName opts) +:+ " struct{}" +:+ nl +:+ nl
     +:+ nl.

(** [tm.Execute(buf, opts)]: the text of [templateS] for [opts]. *)
Definition Execute (opts : GenOpts) : string :=
  let rec := First (ImplName opts) in
  renderHeader opts
    +:+ concat (List.map (renderMethod opts rec) (Methods opts (Inter opts)))
    +:+ nl.

(** ** Generate *)

(** An [io.Writer]: [Write p] reports how many bytes of [p] it took and
    an error, if any.  The sink holds the bytes taken. *)
Definition Writer := string -> nat * option string.

Fixpoint takeBytes (n : nat) (s : string) : string :=
  match n, s with
  | S k, String c r => String c (takeBytes k r)
  | _, _ => ""
  end.

Section Generate.
(** The collaborators of [Generate] outside the package. *)
Variable File : Type.                                  (* *ast.File *)
Variable ParseFile : string -> File + string.          (* parser.ParseFile *)
Variable Fprint : File -> string + string.             (* printer.Config.Fprint *)
Variable Process : string -> string + string.          (* imports.Process *)
Variable out : Writer.

(** [out.Write(bts)] as the last step of [Generate]. *)
Definition writeOut (opts : GenOpts) (sink bts : string) : GenOpts * string * res unit :=
  let '(n, err) := out bts in
  (opts, sink +:+ takeBytes n bts,
   match err with
   | None => Ret tt
   | Some e => Err e
   end).

(** [Generate] an empty implementation of the interface as specified
    in opts and write the result to out.  It returns the options as it
    leaves them, the sink, and how it ended. *)
Definition Generate (opts : GenOpts) (sink : string) : GenOpts * string * res unit :=
  let opts := match MethodBlacklist opts with
              | None => setMethodBlacklist (Some ∅) opts
              | Some _ => opts
              end in
  let opts := match Comments opts with
              | None => setComments (Some ∅) opts
              | Some _ => opts
              end in
  match handleExisting opts with
  | (opts, Ret _) =>
      let opts := if decide (PkgName opts = "")
                  then setPkgName (fst (packageAndName (Inter opts))) opts
                  else opts in
      let buf := Execute opts in
      (* Parse it back. *)
      match ParseFile buf with
      | inr err => (opts, sink, Err ("Error parsing generated code: " +:+ err))
      | inl astFile =>
          (* Print. *)
          match Fprint astFile with
          | inr err => (opts, sink, Err err)
          | inl b =>
              if NoGoImports opts then writeOut opts sink b
              else
                match Process b with
                | inr err => (opts, sink, Err ("Error fixing imports: " +:+ err))
                | inl bts => writeOut opts sink bts
                end
          end
      end
  | (opts, Err e) => (opts, sink, Err e)
  | (opts, Panic p) => (opts, sink, Panic p)
  end.
End Generate.

(** ** Sample descriptors, after the package's tests *)

Module Sample.
Definition basic (s : string) : rtype := RType s s "" false false [] KOther.
Definition named (pkgPath pkg name : string) (k : KindOf rtype) : rtype :=
  RType (pkg +:+ "." +:+ name) name pkgPath false false [] k.
Definition ptr (e : rtype) : rtype :=
  RType ("*" +:+ tString e) "" "" false false [] (KPtr e).
Definition slice (e : rtype) : rtype :=
  RType ("[]" +:+ tString e) "" "" false false [] (KSlice e).

Definition int : rtype := basic "int".
Definition uint8 : rtype := basic "uint8".
Definition error : rtype :=
  RType "error" "error" "" true false [RMethod "Error" [] [basic "string"]] KOther.
Definition emptyInterface : rtype := RType "interface {}" "" "" false false [] KOther.
Definition Request : rtype := named "net/rpc" "rpc" "Request" KOther.
Definition Response : rtype := named "net/rpc" "rpc" "Response" KOther.

(** [io.ReadCloser] *)
Definition ReadCloser : rtype :=
  RType "io.ReadCloser" "ReadCloser" "io" false false
    [RMethod "Close" [] [error]; RMethod "Read" [slice uint8] [int; error]] KOther.

(** [rpc.ClientCodec] *)
Definition ClientCodec : rtype :=
  RType "rpc.ClientCodec" "ClientCodec" "net/rpc" false false
    [RMethod "Close" [] [error];
     RMethod "ReadResponseBody" [emptyInterface] [error];
     RMethod "ReadResponseHeader" [ptr Response] [error];
     RMethod "WriteRequest" [ptr Request; emptyInterface] [error]] KOther.

(** [AlmostClientCodec] of the tests; the methods of a struct type
    list the receiver as their first input. *)
Definition AlmostClientCodec : rtype :=
  let self := RType "goimpl.AlmostClientCodec" "AlmostClientCodec"
                "github.com/sasha-s/goimpl" false false [] KOther in
  RType "goimpl.AlmostClientCodec" "AlmostClientCodec" "github.com/sasha-s/goimpl"
    false false
    [RMethod "Close" [self; int] [error];
     RMethod "ReadResponseHeader" [self; ptr Response] [error];
     RMethod "WriteRequest" [self; emptyInterface; ptr Request] [error]] KOther.

Definition opts1 : GenOpts :=
  mkGenOpts "pkg" "*Impl" ReadCloser None true None None false [].
Definition opts2 : GenOpts :=
  mkGenOpts "" "" ClientCodec (Some AlmostClientCodec) false None None false [].
End Sample.

(** ** The comparison as the specification words it *)

Module Spec.
(** "number of <inputs|outputs>: had <n>, want <m>" *)
Definition countFinding (n : string) (have want : nat) : string :=
  "number of " +:+ n +:+ "s: had " +:+ pretty have +:+ ", want " +:+ pretty want.

(** "<inputs|outputs>[<i>]: had <q><have><q> want <q><want><q>", for
    the quotation mark [q]. *)
Definition indexFinding (q n : string) (i : nat) (have want : string) : string :=
  n +:+ "s[" +:+ pretty i +:+ "]: had " +:+ q +:+ have +:+ q
    +:+ " want " +:+ q +:+ want +:+ q.

(** The findings for one list: the count finding alone when the
    lengths differ, else one finding per index whose strings differ. *)
Definition findings (q n : string) (have want : list string) : list string :=
  if decide (length have = length want) then
    mjoin (imap (fun i hw => if decide (hw.1 = hw.2) then []
                             else [indexFinding q n i hw.1 hw.2])
                (zip have want))
  else [countFinding n (length have) (length want)].

(** Each group joined with "; ", and the two groups joined with "; "
    when both are non-empty. *)
Definition diffText (q : string) (haveIn wantIn haveOut wantOut : list string) : string :=
  match findings q "input" haveIn wantIn, findings q "output" haveOut wantOut with
  | [], [] => ""
  | fi, [] => Join fi "; "
  | [], fo => Join fo "; "
  | fi, fo => Join fi "; " +:+ "; " +:+ Join fo "; "
  end.
End Spec.

(** The canonical strings of the types of a list of arguments. *)
Definition typeStrings (a : list Arg) : list string := (fun x => tString (aType x)) <$> a.

(** ** Reconciliation as the specification words it *)

(** The decision for one required method. *)
Inductive Decision :=
| Missing
| Mismatched (d : string)
| Satisfied.

(** How a required method [v] is classified against the existing
    methods [eMap]. *)
Definition decision (eMap : gmap string Method) (v : Method) : Decision :=
  match eMap !! Name v with
  | None => Missing
  | Some w => if decide (Diff w v = "") then Satisfied else Mismatched (Diff w v)
  end.

(** The comment of a mismatched method: the diff text, after the
    comment already there and a space when there is a non-empty one. *)
Definition appendDiff (old : option string) (d : string) : string :=
  match old with
  | None => d
  | Some c => if decide (c = "") then d else c +:+ " " +:+ d
  end.

(** What a decision does to the blacklist and the comments at [k]. *)
Definition applied (dec : Decision) (k : string)
    (bl bl' : gset string) (cm cm' : gmap string string) : Prop :=
  match dec with
  | Missing => (k ∈ bl' <-> k ∈ bl) /\ cm' !! k = cm !! k
  | Satisfied => k ∈ bl' /\ cm' !! k = cm !! k
  | Mismatched d => (k ∈ bl' <-> k ∈ bl) /\ cm' !! k = Some (appendDiff (cm !! k) d)
  end.

(** The fields of the options that are neither of the two maps. *)
Definition sameButMaps (o o' : GenOpts) : Prop :=
  PkgName o' = PkgName o /\ ImplName o' = ImplName o /\ Inter o' = Inter o
  /\ Existing o' = Existing o /\ NoNamedReturnValues o' = NoNamedReturnValues o
  /\ NoGoImports o' = NoGoImports o /\ Extra o' = Extra o.

(** The method [Methods] builds for [ft]. *)
Definition methodFor (opts : GenOpts) (ft : RMethodOf rtype) : Method :=
  let mtd := MethodOf (First (ImplName opts)) ft in
  match commentOf opts (mName ft) with
  | Some c => withComment c mtd
  | None => mtd
  end.

(** The package and implementation names [handleExisting] takes from
    the existing type. *)
Definition existingTarget (et : rtype) : string * string :=
  match tKind et with
  | KPtr elem => ((packageAndName elem).1, "*" +:+ (packageAndName elem).2)
  | _ => packageAndName et
  end.

(** Signatures and scopes used in the examples below. *)
Module SampleSig.
Import Sample.
(** [WriteRequest] as [AlmostClientCodec] has it, receiver stripped,
    and as [rpc.ClientCodec] requires it. *)
Definition haveWrite : Method :=
  withInputs [mkArg emptyInterface "i" ", "; mkArg (ptr Request) "r" ""]
    (MethodOf "z" (RMethod "WriteRequest" [emptyInterface; ptr Request] [error])).
Definition wantWrite : Method :=
  MethodOf "z" (RMethod "WriteRequest" [ptr Request; emptyInterface] [error]).
Definition taken : scope := {["err"; "err1"; "r"]}.
End SampleSig.

(** The options of the second test case as [Generate] hands them to
    [handleExisting], and the method [Close] of [rpc.ClientCodec]. *)
Module SampleRun.
Definition opts : GenOpts :=
  setComments (Some ∅) (setMethodBlacklist (Some ∅) Sample.opts2).
Definition Close : RMethodOf rtype := RMethod "Close" [] [Sample.error].
(** The same options with [Close] blacklisted by the caller. *)
Definition optsNoClose : GenOpts :=
  setMethodBlacklist (Some {["Close"]}) Sample.opts2.
End SampleRun.

(** ** The steps of [Generate], named *)

(** The first two statements of [Generate]: a nil map becomes an empty one. *)
Definition initMaps (opts : GenOpts) : GenOpts :=
  let opts := match MethodBlacklist opts with
              | None => setMethodBlacklist (Some ∅) opts
              | Some _ => opts
              end in
  match Comments opts with
  | None => setComments (Some ∅) opts
  | Some _ => opts
  end.

(** The options as [Generate] leaves them: after [handleExisting] and,
    when that succeeds, after the default for an empty [PkgName]. *)
Definition finalOpts (opts : GenOpts) : GenOpts :=
  match handleExisting (initMaps opts) with
  | (o, Ret _) =>
      if decide (PkgName o = "") then setPkgName (packageAndName (Inter o)).1 o else o
  | (o, _) => o
  end.

(** Collaborators for the examples: a parser that rejects a receiver
    type starting with a dash, as go/parser does for the third test
    case, a printer and an import pass that change nothing, a writer
    that takes everything and one that takes ten bytes and fails. *)
Module SampleIO.
Definition parse (src : string) : string + string :=
  match String.index 0 " -" src with
  | Some _ => inr "dummy.go:12:9: expected type, found '-'"
  | None => inl src
  end.
Definition print (f : string) : string + string := inl f.
Definition process (src : string) : string + string := inl src.
Definition fullWriter : Writer := fun p => (String.length p, None).
Definition shortWriter : Writer := fun p => (10, Some "short write").
(** The third test case. *)
Definition optsBad : GenOpts :=
  mkGenOpts "pkg" "-bad name" (RType "fmt.Stringer" "Stringer" "fmt" false false
    [RMethod "String" [] [Sample.basic "string"]] KOther) None false None None false [].
(** An implementation name together with an existing type. *)
Definition optsBoth : GenOpts :=
  mkGenOpts "" "Impl" Sample.ReadCloser (Some Sample.AlmostClientCodec)
    false None None true [].
(** An existing value of a predeclared type: [Existing: 5]. *)
Definition optsInt : GenOpts :=
  mkGenOpts "" "" Sample.ReadCloser (Some Sample.int) false None None true [].
End SampleIO.

(** ** Notions used to state further properties *)

(** A lowercase ASCII letter. *)
Definition isLower (r : ascii) : bool :=
  let n := nat_of_ascii r in Nat.leb 97 n && Nat.leb n 122.

(** The last method of a list that has the name [k]. *)
Definition lastNamed (k : string) (ms : list Method) : option Method :=
  List.fold_left (fun acc m => if decide (Name m = k) then Some m else acc) ms None.

(** The separators of a list of [n] arguments: a comma after each but
    the last. *)
Definition separators (n : nat) : list string :=
  match n with
  | O => []
  | S k => replicate k ", " ++ [""]
  end.

(** The maps of the second test case as [handleExisting] builds them. *)
Module SampleMaps.
Definition eMap : gmap string Method :=
  toMap ((fun m => withInputs (tail (Inputs m)) m)
           <$> Methods SampleRun.opts Sample.AlmostClientCodec).
Definition rMap : gmap string Method :=
  toMap (Methods SampleRun.opts Sample.ClientCodec).
End SampleMaps.

(** A type that implements [io.ReadCloser], and options to reconcile
    the two. *)
Module SampleFull.
Definition self : rtype :=
  RType "pkg.File" "File" "example.com/pkg" false false [] KOther.
Definition close : RMethodOf rtype := RMethod "Close" [self] [Sample.error].
Definition read : RMethodOf rtype :=
  RMethod "Read" [self; Sample.slice Sample.uint8] [Sample.int; Sample.error].
Definition File : rtype :=
  RType "pkg.File" "File" "example.com/pkg" false false [close; read] KOther.
Definition opts : GenOpts :=
  mkGenOpts "" "" Sample.ReadCloser (Some File) false (Some ∅) (Some ∅) true [].
End SampleFull.

(** Descriptors whose string is the one the [reflect] package prints,
    built from types outside the package [p] by pointers, slices,
    arrays, maps and channels: a type without a package whose name is
    its string, a type [pkg.Name] of another package, an unnamed type
    of another kind with any string, and the composites over these. *)
Inductive outside (p : string) : rtype -> Prop :=
| outside_plain s e c ms k :
    s ≠ "" -> outside p (RType s s "" e c ms k)
| outside_named pkgPath pkg name e c ms k :
    pkgPath ≠ "" -> name ≠ "" -> pkg ≠ "" -> pkg ≠ p -> "."%char ∉ runes pkg ->
    outside p (RType (pkg +:+ "." +:+ name) name pkgPath e c ms k)
| outside_other s e c ms :
    outside p (RType s "" "" e c ms KOther)
| outside_ptr el e c ms :
    outside p el -> outside p (RType ("*" +:+ tString el) "" "" e c ms (KPtr el))
| outside_slice el e c ms :
    outside p el -> outside p (RType ("[]" +:+ tString el) "" "" e c ms (KSlice el))
| outside_array n el e c ms :
    outside p el ->
    outside p (RType ("[" +:+ pretty n +:+ "]" +:+ tString el) "" "" e c ms (KArray n el))
| outside_map key el e c ms :
    outside p key -> outside p el ->
    outside p (RType ("map[" +:+ tString key +:+ "]" +:+ tString el) "" "" e c ms
                 (KMap key el))
| outside_chan d el e c ms :
    outside p el ->
    match tKind el with KChan _ _ => False | _ => True end ->
    outside p (RType (ChanDir_String d +:+ " " +:+ tString el) "" "" e c ms (KChan d el)).

(** ** The command: [parse] of cmd/goimpl *)

(** [strings.Count(s, sep)] for a one-character separator. *)
Fixpoint Count (s : string) (sep : ascii) : nat :=
  match s with
  | EmptyString => 0
  | String c r => if decide (c = sep) then S (Count r sep) else Count r sep
  end.

Module Cmd.
(** White space, on ASCII: tab, line feed, vertical tab, form feed,
    carriage return and space. *)
Definition isSpace (r : ascii) : bool :=
  let n := nat_of_ascii r in (Nat.leb 9 n && Nat.leb n 13) || Nat.eqb n 32.

Fixpoint trimLeft (s : string) : string :=
  match s with
  | EmptyString => ""
  | String c r => if isSpace c then trimLeft r else s
  end.

Definition reverseString (s : string) : string := of_runes (rev (runes s)).

(** [strings.TrimSpace] *)
Definition TrimSpace (s : string) : string :=
  reverseString (trimLeft (reverseString (trimLeft s))).

(** [strings.TrimPrefix(s, prefix)] for a one-character prefix. *)
Definition TrimPrefix (s : string) (prefix : ascii) : string :=
  match s with
  | EmptyString => ""
  | String c r => if decide (c = prefix) then r else s
  end.

Record parsedType := mkParsed {
  ptr : string;
  pkg : string;
  name : string
}.

(** [parse]: the parsed type and the error, if any. *)
Definition parse (tp : string) : parsedType * option string :=
  let tp := TrimSpace tp in
  let t := TrimPrefix tp "*" in
  let ptr := if decide (String.length t ≠ String.length tp) then "*" else "" in
  match Split t "." with
  | [] => (mkParsed "" "" "", None)
  | [p0] => (mkParsed ptr "" p0, None)
  | [p0; p1] => (mkParsed ptr p0 p1, None)
  | _ => (mkParsed "" "" "",
          Some ("failed to parse ``" +:+ t +:+ "`. Expected [package.]type."))
  end.
End Cmd.

(** * Properties *)

(** ** Strings *)

Lemma append_cons (x : ascii) (a b : string) : String x a +:+ b = String x (a +:+ b).
Proof. reflexivity. Qed.

Lemma append_empty_l (b : string) : "" +:+ b = b.
Proof. reflexivity. Qed.

Lemma append_length (a b : string) :
  String.length (a +:+ b) = String.length a + String.length b.
Proof.
  induction a as [|c a IH]; [done|].
  rewrite append_cons. simpl. by rewrite IH.
Qed.

Lemma append_assoc (a b c : string) : (a +:+ b) +:+ c = a +:+ (b +:+ c).
Proof.
  induction a as [|x a IH]; [done|].
  rewrite !append_cons. by rewrite IH.
Qed.

Lemma append_empty_r (a : string) : a +:+ "" = a.
Proof.
  induction a as [|x a IH]; [done|].
  rewrite append_cons. by rewrite IH.
Qed.

Lemma append_eq_empty (a b : string) : a +:+ b = "" -> a = "" /\ b = "".
Proof. destruct a; [done | rewrite append_cons; discriminate]. Qed.

Lemma append_self_r (a b : string) : a = a +:+ b -> b = "".
Proof.
  intros H. apply (f_equal String.length) in H. rewrite append_length in H.
  destruct b; [done | simpl in H; lia].
Qed.

Lemma pretty_N_go_length (x : N) (s : string) :
  String.length s <= String.length (pretty_N_go x s).
Proof.
  revert s. induction (N.lt_wf_0 x) as [x _ IH]; intros s.
  destruct (decide (x = 0%N)) as [->|Hx].
  - by rewrite pretty_N_go_0.
  - rewrite pretty_N_go_step by lia.
    etrans; [|apply IH; apply N.div_lt; lia]. simpl. lia.
Qed.

Lemma pretty_nat_nonempty (n : nat) : pretty n ≠ "".
Proof.
  unfold pretty, pretty_nat, pretty, pretty_N.
  destruct (decide (N.of_nat n = 0%N)) as [|Hn]; [done|].
  rewrite pretty_N_go_step by lia.
  intros H. apply (f_equal String.length) in H.
  pose proof (pretty_N_go_length (N.of_nat n `div` 10)
    (String (pretty_N_char (N.of_nat n `mod` 10)) "")) as Hl.
  rewrite H in Hl. simpl in Hl. lia.
Qed.

(** ** The argument namer *)

Lemma candidate_inj (f : string) : Inj (=) (=) (candidate f).
Proof.
  intros [|a] [|b] H; simpl in H; [done | | |].
  - apply append_self_r in H. by apply pretty_nat_nonempty in H.
  - symmetry in H. apply append_self_r in H. by apply pretty_nat_nonempty in H.
  - apply String.app_inj in H. by apply pretty_nat_inj in H.
Qed.

(** Pigeonhole: if the first [i] candidates are all taken, the scope
    has at least [i] names. *)
Lemma candidates_taken_size (f : string) (cur : scope) (i : nat) :
  (forall j, j < i -> candidate f j ∈ cur) -> i <= size cur.
Proof.
  intros Hall.
  assert (Hsub : list_to_set (candidate f <$> seq 0 i) ⊆ cur).
  { intros x (y & -> & Hy)%elem_of_list_to_set%list_elem_of_fmap.
    apply Hall. apply elem_of_seq in Hy. lia. }
  apply subseteq_size in Hsub.
  rewrite size_list_to_set in Hsub.
  - by rewrite length_fmap, length_seq in Hsub.
  - apply (NoDup_fmap_2 _ (Inj0:=candidate_inj f)), NoDup_seq.
Qed.

(** The loop returns the least free candidate, whatever [fuel] above
    the size of the scope it is given: the bound is never what stops it. *)
Lemma uniqueName_from (f : string) (cur : scope) (fuel i : nat) :
  (forall j, j < i -> candidate f j ∈ cur) ->
  size cur < i + fuel ->
  exists c, i <= c
    /\ uniqueName f cur fuel (candidate f i) (S i) = candidate f c
    /\ (candidate f c ∉ cur)
    /\ forall j, j < c -> candidate f j ∈ cur.
Proof.
  revert i. induction fuel as [|k IH]; intros i Hall Hsz.
  - apply candidates_taken_size in Hall. lia.
  - simpl. destruct (decide (candidate f i ∈ cur)) as [Hin|Hout].
    + destruct (IH (S i)) as (c & Hc & Hu & Hfree & Hlt).
      * intros j Hj. destruct (decide (j = i)) as [->|]; [done | apply Hall; lia].
      * lia.
      * exists c. split; [lia | done].
    + exists i. done.
Qed.

Lemma uniqueName_least (f : string) (cur : scope) :
  exists c,
    uniqueName f cur (S (size cur)) f 1 = candidate f c
    /\ (candidate f c ∉ cur)
    /\ forall j, j < c -> candidate f j ∈ cur.
Proof.
  destruct (uniqueName_from f cur (S (size cur)) 0) as (c & _ & Hu & Hfree & Hlt);
    [intros j Hj; lia | lia |].
  exists c. done.
Qed.

Lemma Short_spec (t : rtype) (cur : scope) :
  exists c,
    Short t cur = (candidate (shortCandidate t) c, {[candidate (shortCandidate t) c]} ∪ cur)
    /\ (candidate (shortCandidate t) c ∉ cur)
    /\ forall j, j < c -> candidate (shortCandidate t) j ∈ cur.
Proof.
  destruct (uniqueName_least (shortCandidate t) cur) as (c & Hu & Hfree & Hlt).
  exists c. unfold Short. rewrite Hu. done.
Qed.

Lemma nameArgs_cons (t : rtype) (ts : list rtype) (cur : scope) :
  nameArgs (t :: ts) cur =
    (mkArg t (Short t cur).1 (match ts with [] => "" | _ => ", " end)
       :: (nameArgs ts (Short t cur).2).1,
     (nameArgs ts (Short t cur).2).2).
Proof.
  cbn [nameArgs]. destruct (Short t cur) as [n cur1]. cbn [fst snd].
  by destruct (nameArgs ts cur1).
Qed.

Lemma nameArgs_spec (ts : list rtype) (cur : scope) :
  aType <$> (nameArgs ts cur).1 = ts
  /\ NoDup (ArgName <$> (nameArgs ts cur).1)
  /\ (forall n, n ∈ ArgName <$> (nameArgs ts cur).1 -> n ∉ cur)
  /\ (nameArgs ts cur).2 = list_to_set (ArgName <$> (nameArgs ts cur).1) ∪ cur.
Proof.
  revert cur. induction ts as [|t ts IH]; intros cur.
  - cbn. repeat split; [constructor | intros n Hn; inversion Hn | set_solver].
  - rewrite nameArgs_cons.
    destruct (Short_spec t cur) as (c & -> & Hfree & _).
    set (n := candidate (shortCandidate t) c) in *. cbn [fst snd].
    destruct (IH ({[n]} ∪ cur)) as (Hty & Hnd & Hout & Hcur).
    rewrite !fmap_cons. cbn [aType ArgName].
    repeat split.
    + by rewrite Hty.
    + constructor; [|done]. intros Hin. apply Hout in Hin. set_solver.
    + intros x [->|Hx]%elem_of_cons; [done|]. apply Hout in Hx. set_solver.
    + rewrite Hcur. set_solver.
Qed.

Lemma MethodOf_unfold (recName : string) (ft : RMethodOf rtype) :
  MethodOf recName ft =
    mkMethod ft (nameArgs (mIn ft) {[recName]}).1
      (nameArgs (mOut ft) (nameArgs (mIn ft) {[recName]}).2).1 "".
Proof.
  unfold MethodOf. destruct (nameArgs (mIn ft) {[recName]}) as [inp cur1].
  cbn [fst snd]. by destruct (nameArgs (mOut ft) cur1).
Qed.

Lemma Name_MethodOf (recName : string) (ft : RMethodOf rtype) :
  Name (MethodOf recName ft) = mName ft.
Proof. by rewrite MethodOf_unfold. Qed.

(** C5. A parameter whose type is convertible to [error] is named
    ["err"], one convertible to [context.Context] but not to [error] is
    named ["ctx"]; when that base name is taken the loop tries base1,
    base2, ... in increasing order: the name assigned is the first
    candidate that is free, every candidate before it is taken, and the
    name is reserved in the scope [Short] leaves. *)
Theorem Short_err_ctx (t : rtype) (cur : scope) (base : string) :
  (tError t = true /\ base = "err")
    \/ (tError t = false /\ tCtx t = true /\ base = "ctx") ->
  exists c : nat,
    (Short t cur).1 = candidate base c
    /\ (candidate base c ∉ cur)
    /\ (forall j, j < c -> candidate base j ∈ cur)
    /\ (c = 0 <-> base ∉ cur)
    /\ (Short t cur).2 = {[candidate base c]} ∪ cur.
Proof.
  intros Hbase.
  assert (Hf : shortCandidate t = base).
  { unfold shortCandidate. destruct (packageAndName (stripPtrSlice t)) as [pkg name].
    destruct Hbase as [[-> ->]|(-> & -> & ->)]; reflexivity. }
  destruct (Short_spec t cur) as (c & HS & Hfree & Hlt).
  rewrite Hf in *. exists c. rewrite HS. cbn [fst snd].
  repeat split; try done.
  - intros ->. exact Hfree.
  - intros Hb. destruct c as [|c]; [done|]. exfalso. apply Hb. apply (Hlt 0). lia.
Qed.

(** The names [Method] assigns: no duplicate, none equal to the
    receiver's, and the scope ends as the receiver's name together with
    every name assigned. *)
Lemma MethodOf_names (recName : string) (ft : RMethodOf rtype) :
  let m := MethodOf recName ft in
  let names := ArgName <$> (Inputs m ++ Outputs m) in
  NoDup names
  /\ (recName ∉ names)
  /\ aType <$> Inputs m = mIn ft
  /\ aType <$> Outputs m = mOut ft
  /\ (nameArgs (mOut ft) (nameArgs (mIn ft) {[recName]}).2).2
       = {[recName]} ∪ list_to_set names.
Proof.
  cbv zeta. rewrite MethodOf_unfold. cbn [Inputs Outputs].
  destruct (nameArgs_spec (mIn ft) {[recName]}) as (Hty1 & Hnd1 & Hout1 & Hcur1).
  destruct (nameArgs_spec (mOut ft) (nameArgs (mIn ft) {[recName]}).2)
    as (Hty2 & Hnd2 & Hout2 & Hcur2).
  set (ins := (nameArgs (mIn ft) {[recName]}).1) in *.
  set (cur1 := (nameArgs (mIn ft) {[recName]}).2) in *.
  set (outs := (nameArgs (mOut ft) cur1).1) in *.
  rewrite fmap_app. repeat split; try done.
  - apply NoDup_app. repeat split; [done | | done].
    intros x Hx1 Hx2. apply Hout2 in Hx2. apply Hx2. rewrite Hcur1. set_solver.
  - intros [Hin|Hin]%elem_of_app.
    + apply Hout1 in Hin. set_solver.
    + apply Hout2 in Hin. apply Hin. rewrite Hcur1. set_solver.
  - rewrite Hcur2, Hcur1. set_solver.
Qed.

(** ** The signature comparator *)

Lemma Join_cons (d : string) (ds : list string) (sep : string) :
  Join (d :: ds) sep = match ds with [] => d | _ => d +:+ sep +:+ Join ds sep end.
Proof. by destruct ds. Qed.

Lemma Join_empty_iff (ds : list string) (sep : string) :
  Forall (fun d => d ≠ "") ds -> Join ds sep = "" <-> ds = [].
Proof.
  intros Hne. split; [|by intros ->].
  destruct ds as [|d ds]; [done|]. apply Forall_cons in Hne as [Hd _].
  rewrite Join_cons. destruct ds; [done|].
  intros [? _]%append_eq_empty. done.
Qed.

Lemma indexFinding_nonempty (q n : string) (i : nat) (h w : string) :
  Spec.indexFinding q n i h w ≠ "".
Proof.
  unfold Spec.indexFinding. intros [_ H]%append_eq_empty. discriminate H.
Qed.

Lemma findings_nonempty (q n : string) (have want : list string) :
  Forall (fun d => d ≠ "") (Spec.findings q n have want).
Proof.
  unfold Spec.findings. case_decide as Hlen.
  - apply Forall_forall. intros x (l & Hx & Hl)%list_elem_of_join.
    apply elem_of_lookup_imap in Hl as (i & [h w] & -> & _). cbn [fst snd] in Hx.
    case_decide; [by apply elem_of_nil in Hx|].
    apply list_elem_of_singleton in Hx as ->. apply indexFinding_nonempty.
  - apply Forall_singleton. unfold Spec.countFinding. discriminate.
Qed.

(** The loop of [diff] finds what the specification lists, index by index. *)
Lemma diffFrom_findings (n : string) (i : nat) (a b : list Arg) :
  diffFrom n i a b =
    mjoin (imap (fun j hw => if decide (hw.1 = hw.2) then []
                             else [Spec.indexFinding bq n (i + j) hw.1 hw.2])
                (zip (typeStrings a) (typeStrings b))).
Proof.
  revert i b. induction a as [|x a IH]; intros i [|y b]; try reflexivity.
  cbn [diffFrom typeStrings fmap list_fmap zip zip_with].
  rewrite imap_cons. cbn [mjoin list_join fst snd].
  rewrite IH. unfold typeStrings.
  match goal with
  | |- _ = _ ++ mjoin (imap ?f ?l) =>
      rewrite (imap_ext f (fun j hw => if decide (hw.1 = hw.2) then []
                 else [Spec.indexFinding bq n (S i + j) hw.1 hw.2]) l)
        by (intros j hw _; cbn; by replace (i + S j) with (S (i + j)) by lia)
  end.
  replace (i + 0) with i by lia.
  destruct (decide (tString (aType x) ≠ tString (aType y))) as [Hne|Heq].
  - rewrite decide_False by done. reflexivity.
  - rewrite decide_True by (by destruct (decide (tString (aType x) = tString (aType y)))).
    reflexivity.
Qed.

Lemma diff_findings (n : string) (a b : list Arg) :
  diff n a b = Join (Spec.findings bq n (typeStrings a) (typeStrings b)) "; ".
Proof.
  unfold diff, Spec.findings, typeStrings. rewrite !length_fmap.
  destruct (decide (length a ≠ length b)) as [Hne|Heq].
  - rewrite decide_False by done. reflexivity.
  - rewrite decide_True by (by destruct (decide (length a = length b))).
    by rewrite diffFrom_findings.
Qed.

(** C2, as the code has it. For two signatures of the same name [Diff]
    compares the inputs and the outputs independently: a list whose
    lengths differ yields the single finding "number of
    <inputs|outputs>: had <n>, want <m>"; otherwise every index whose
    type strings differ yields "<inputs|outputs>[<i>]: had `<have>` want
    `<want>`", the types between backquotes; the findings of a list are
    joined with "; ", the two groups with "; " when both are non-empty,
    and the result is empty exactly when there is no finding. *)
Theorem Diff_findings (m other : Method) :
  Name m = Name other ->
  Diff m other =
    Spec.diffText bq (typeStrings (Inputs m)) (typeStrings (Inputs other))
                     (typeStrings (Outputs m)) (typeStrings (Outputs other))
  /\ (Diff m other = "" <->
      Spec.findings bq "input" (typeStrings (Inputs m)) (typeStrings (Inputs other)) = []
      /\ Spec.findings bq "output" (typeStrings (Outputs m)) (typeStrings (Outputs other)) = []).
Proof.
  intros Hname. unfold Diff, Spec.diffText.
  rewrite decide_False by (intros H; by apply H).
  rewrite !diff_findings.
  pose proof (findings_nonempty bq "input" (typeStrings (Inputs m))
                (typeStrings (Inputs other))) as Hi.
  pose proof (findings_nonempty bq "output" (typeStrings (Outputs m))
                (typeStrings (Outputs other))) as Ho.
  pose proof (Join_empty_iff _ "; " Hi) as Ji.
  pose proof (Join_empty_iff _ "; " Ho) as Jo.
  destruct (Spec.findings bq "input" _ _) as [|fi fis];
    destruct (Spec.findings bq "output" _ _) as [|fo fos].
  - rewrite decide_False by (intros [H _]; by apply H). done.
  - rewrite decide_False by (intros [H _]; by apply H).
    split; [done|]. split; [intros H; apply Jo in H; done | intros [_ ?]; done].
  - rewrite decide_False by (intros [_ H]; by apply H).
    rewrite append_empty_r.
    split; [done|]. split; [intros H; apply Ji in H; done | intros [? _]; done].
  - rewrite decide_True
      by (split; intros H; [apply Ji in H | apply Jo in H]; done).
    split; [done|]. split; [|intros [? _]; done].
    intros [H _]%append_eq_empty. apply Ji in H. done.
Qed.

Lemma Diff_findings_witness :
  Name SampleSig.haveWrite = Name SampleSig.wantWrite
  /\ Diff SampleSig.haveWrite SampleSig.wantWrite =
       Spec.diffText bq (typeStrings (Inputs SampleSig.haveWrite))
         (typeStrings (Inputs SampleSig.wantWrite))
         (typeStrings (Outputs SampleSig.haveWrite))
         (typeStrings (Outputs SampleSig.wantWrite)).
Proof.
  split; [reflexivity|].
  apply (Diff_findings SampleSig.haveWrite SampleSig.wantWrite). reflexivity.
Defined.

(** C2 as worded puts the types between apostrophes; the code puts them
    between backquotes. *)
Lemma Diff_apostrophe_counterexample :
  Diff SampleSig.haveWrite SampleSig.wantWrite =
    "inputs[0]: had `interface {}` want `*rpc.Request`; inputs[1]: had `*rpc.Request` want `interface {}`"
  /\ Spec.diffText "'" (typeStrings (Inputs SampleSig.haveWrite))
       (typeStrings (Inputs SampleSig.wantWrite))
       (typeStrings (Outputs SampleSig.haveWrite))
       (typeStrings (Outputs SampleSig.wantWrite)) =
    "inputs[0]: had 'interface {}' want '*rpc.Request'; inputs[1]: had '*rpc.Request' want 'interface {}'"
  /\ Diff SampleSig.haveWrite SampleSig.wantWrite ≠
     Spec.diffText "'" (typeStrings (Inputs SampleSig.haveWrite))
       (typeStrings (Inputs SampleSig.wantWrite))
       (typeStrings (Outputs SampleSig.haveWrite))
       (typeStrings (Outputs SampleSig.wantWrite)).
Proof. vm_compute. repeat split. discriminate. Qed.

Lemma Short_err_ctx_witness :
  ((tError Sample.error = true /\ "err" = "err")
     \/ (tError Sample.error = false /\ tCtx Sample.error = true /\ "err" = "ctx"))
  /\ exists c : nat,
      (Short Sample.error SampleSig.taken).1 = candidate "err" c
      /\ (candidate "err" c ∉ SampleSig.taken)
      /\ (forall j, j < c -> candidate "err" j ∈ SampleSig.taken)
      /\ (c = 0 <-> "err" ∉ SampleSig.taken)
      /\ (Short Sample.error SampleSig.taken).2 = {[candidate "err" c]} ∪ SampleSig.taken.
Proof.
  split; [left; split; reflexivity|].
  apply (Short_err_ctx Sample.error SampleSig.taken "err"). left. split; reflexivity.
Defined.

Example Short_err_taken :
  (Short Sample.error SampleSig.taken).1 = "err2"
  /\ (Short Sample.error ∅).1 = "err"
  /\ candidate "ctx" 1 = "ctx1".
Proof. vm_compute. done. Qed.

(** ** The first letter *)

Lemma Split_nonempty (s : string) (sep : ascii) : Split s sep ≠ [].
Proof.
  destruct s as [|c s]; cbn; [done|].
  destruct (decide (c = sep)); [done|]. by destruct (Split s sep).
Qed.

Lemma find_first (P : ascii -> bool) (l : list ascii) :
  match List.find P l with
  | Some r => exists pre post,
      l = pre ++ r :: post /\ Forall (fun x => P x = false) pre /\ P r = true
  | None => Forall (fun x => P x = false) l
  end.
Proof.
  induction l as [|x l IH]; cbn; [constructor|].
  destruct (P x) eqn:Hx.
  - exists [], l. done.
  - destruct (List.find P l) as [r|].
    + destruct IH as (pre & post & -> & Hpre & Hr).
      exists (x :: pre), post. repeat split; [|done]. by constructor.
    + by constructor.
Qed.

Lemma First_unfold (s : string) :
  First s = match List.find IsLetter (runes (lastPart (Split s "."))) with
            | Some r => String (ToLower r) ""
            | None => "z"
            end.
Proof.
  unfold First. pose proof (Split_nonempty s ".") as H.
  by destruct (Split s ".").
Qed.

Lemma stripPtrSlice_kind (t : rtype) :
  match tKind (stripPtrSlice t) with KPtr _ | KSlice _ => False | _ => True end.
Proof.
  revert t. fix IH 1. intros [str nm pp e c ms k].
  destruct k as [e'|e'| | | | |]; cbn; try exact I; apply IH.
Qed.

(** What [First] computes for the candidate of [Short]: on the name of
    the type reached by stripping pointers and slices, the lowercase
    of the first letter of the part after the last dot, and ["z"] when
    that part has no letter.  [Short] keeps this candidate unless the
    type is an error or a context or the short-name rule applies. *)
Theorem First_candidate (t : rtype) :
  let base := stripPtrSlice t in
  let pkg := (packageAndName base).1 in
  let name := (packageAndName base).2 in
  let loc := lastPart (Split name ".") in
  match tKind base with KPtr _ | KSlice _ => False | _ => True end
  /\ Split name "." ≠ []
  /\ ((exists pre r post,
          runes loc = pre ++ r :: post
          /\ Forall (fun x => IsLetter x = false) pre
          /\ IsLetter r = true
          /\ First name = String (ToLower r) "")
      \/ (Forall (fun x => IsLetter x = false) (runes loc) /\ First name = "z"))
  /\ (loc = "" -> First name = "z")
  /\ shortCandidate t =
       if tError t then "err"
       else if tCtx t then "ctx"
       else if Nat.leb (String.length (lowerName name).1) 3
                 && negb (String.eqb (lowerName name).1 (lowerName name).2)
                 && negb (String.eqb (lowerName name).1 pkg)
            then (lowerName name).1
            else First name.
Proof.
  cbv zeta. repeat split.
  - apply stripPtrSlice_kind.
  - apply Split_nonempty.
  - rewrite First_unfold.
    pose proof (find_first IsLetter
      (runes (lastPart (Split (packageAndName (stripPtrSlice t)).2 ".")))) as H.
    destruct (List.find IsLetter _) as [r|].
    + left. destruct H as (pre & post & Hl & Hpre & Hr). by exists pre, r, post.
    + right. done.
  - intros Hloc. rewrite First_unfold, Hloc. reflexivity.
  - unfold shortCandidate. destruct (packageAndName (stripPtrSlice t)) as [pkg name].
    cbn [fst snd]. by destruct (lowerName name).
Qed.

(** C4. The code at the failing input.  [First] guards its ["u"]
    result by [len(parts) == 0], but [strings.Split] of any string,
    the empty one included, has at least one part: the guard never
    holds, and [First] of the empty name, which [Methods] computes on
    every run with an empty implementation name, is ["z"]. *)
Theorem First_empty_name :
  Split "" "." = [""]
  /\ First "" = "z"
  /\ First (ImplName Sample.opts2) = "z"
  /\ (forall s, Split s "." ≠ []).
Proof.
  split_and!; try reflexivity. intros s. apply Split_nonempty.
Qed.

(** ** Method lists and method maps *)

Lemma Methods_omap (opts : GenOpts) (it : rtype) :
  Methods opts it =
    omap (fun ft => if blacklisted opts (mName ft) then None else Some (methodFor opts ft))
         (tMethods it).
Proof.
  unfold Methods.
  enough (H : forall l acc,
    List.fold_left
      (fun m ft =>
         if blacklisted opts (mName ft) then m
         else m ++ [match commentOf opts (mName ft) with
                    | Some c => withComment c (MethodOf (First (ImplName opts)) ft)
                    | None => MethodOf (First (ImplName opts)) ft
                    end]) l acc
    = acc ++ omap (fun ft => if blacklisted opts (mName ft) then None
                             else Some (methodFor opts ft)) l)
    by apply (H _ []).
  induction l as [|ft l IH]; intros acc; cbn [List.fold_left omap list_omap].
  - by rewrite app_nil_r.
  - rewrite IH. destruct (blacklisted opts (mName ft)); [done|].
    by rewrite <- app_assoc.
Qed.

Lemma Name_methodFor (opts : GenOpts) (ft : RMethodOf rtype) :
  Name (methodFor opts ft) = mName ft.
Proof.
  unfold methodFor. destruct (commentOf opts (mName ft)); apply Name_MethodOf.
Qed.

Lemma elem_of_Methods (opts : GenOpts) (it : rtype) (m : Method) :
  m ∈ Methods opts it <->
  exists ft, ft ∈ tMethods it /\ blacklisted opts (mName ft) = false /\ m = methodFor opts ft.
Proof.
  rewrite Methods_omap, list_elem_of_omap. split.
  - intros (ft & Hft & H). exists ft. destruct (blacklisted opts (mName ft)); naive_solver.
  - intros (ft & Hft & Hbl & ->). exists ft. by rewrite Hbl.
Qed.

(** C6. Within one method the receiver's name is given to no parameter
    and no two parameters (inputs and outputs together) get the same
    name: the scope starts as the receiver's name alone and ends as
    that name together with every name assigned.  So it is for every
    method [Methods] lists, whose receiver is [First] of the
    implementation name, as in the template. *)
Theorem Method_names_distinct (recName : string) (ft : RMethodOf rtype)
    (opts : GenOpts) (it : rtype) :
  (let m := MethodOf recName ft in
   let names := ArgName <$> (Inputs m ++ Outputs m) in
   NoDup names
   /\ (recName ∉ names)
   /\ aType <$> Inputs m = mIn ft
   /\ aType <$> Outputs m = mOut ft
   /\ (nameArgs (mOut ft) (nameArgs (mIn ft) {[recName]}).2).2
        = {[recName]} ∪ list_to_set names)
  /\ Forall (fun m =>
        NoDup (ArgName <$> (Inputs m ++ Outputs m))
        /\ (First (ImplName opts) ∉ ArgName <$> (Inputs m ++ Outputs m)))
      (Methods opts it).
Proof.
  split; [apply MethodOf_names|].
  apply Forall_forall. intros m (ft' & _ & _ & ->)%elem_of_Methods.
  pose proof (MethodOf_names (First (ImplName opts)) ft') as H. cbv zeta in H.
  destruct H as (Hnd & Hrec & _).
  unfold methodFor. by destruct (commentOf opts (mName ft')).
Qed.

Lemma Methods_names (opts : GenOpts) (it : rtype) :
  Name <$> Methods opts it =
    List.filter (fun n => negb (blacklisted opts n)) (mName <$> tMethods it).
Proof.
  rewrite Methods_omap. induction (tMethods it) as [|ft l IH]; [done|].
  cbn [omap list_omap fmap list_fmap List.filter].
  destruct (blacklisted opts (mName ft)); cbn [negb]; [done|].
  cbn [fmap list_fmap]. by rewrite Name_methodFor, <- IH.
Qed.

Lemma NoDup_filter_list (l : list string) (p : string -> bool) :
  NoDup l -> NoDup (List.filter p l).
Proof.
  induction 1 as [|x l Hx Hnd IH]; cbn; [constructor|].
  destruct (p x); [|done]. constructor; [|done].
  intros Hin. apply Hx. apply list_elem_of_In, filter_In in Hin as [Hin _].
  by apply list_elem_of_In.
Qed.

Lemma toMap_fold (ms : list Method) (acc : gmap string Method) (k : string) :
  List.fold_left (fun r x => <[Name x := x]> r) ms acc !! k =
    match toMap ms !! k with
    | Some v => Some v
    | None => acc !! k
    end.
Proof.
  unfold toMap. revert acc. induction ms as [|m ms IH] using rev_ind; intros acc.
  - cbn. by rewrite lookup_empty.
  - rewrite !fold_left_app. cbn [List.fold_left].
    destruct (decide (Name m = k)) as [->|Hne].
    + by rewrite !lookup_insert_eq.
    + rewrite !lookup_insert_ne by done. rewrite IH, (IH ∅), lookup_empty. done.
Qed.

Lemma toMap_snoc (ms : list Method) (m : Method) :
  toMap (ms ++ [m]) = <[Name m := m]> (toMap ms).
Proof. unfold toMap. by rewrite fold_left_app. Qed.

Lemma toMap_lookup_Some (ms : list Method) (k : string) (v : Method) :
  toMap ms !! k = Some v -> v ∈ ms /\ Name v = k.
Proof.
  induction ms as [|m ms IH] using rev_ind.
  - unfold toMap. cbn. by rewrite lookup_empty.
  - rewrite toMap_snoc. destruct (decide (Name m = k)) as [<-|Hne].
    + rewrite lookup_insert_eq. intros [= <-]. split; [|done].
      apply elem_of_app. right. by apply list_elem_of_singleton.
    + rewrite lookup_insert_ne by done. intros [? ?]%IH. split; [|done].
      apply elem_of_app. by left.
Qed.

Lemma toMap_lookup_None (ms : list Method) (k : string) :
  toMap ms !! k = None <-> k ∉ Name <$> ms.
Proof.
  induction ms as [|m ms IH] using rev_ind.
  - unfold toMap. cbn. rewrite lookup_empty. split; [|done].
    intros _ H. by apply elem_of_nil in H.
  - rewrite toMap_snoc, fmap_app, elem_of_app. cbn [fmap list_fmap].
    rewrite list_elem_of_singleton.
    destruct (decide (Name m = k)) as [<-|Hne].
    + rewrite lookup_insert_eq. split; [done|]. intros H. exfalso. apply H. by right.
    + rewrite lookup_insert_ne by done. rewrite IH. naive_solver.
Qed.

Lemma toMap_lookup_NoDup (ms : list Method) (v : Method) :
  NoDup (Name <$> ms) -> v ∈ ms -> toMap ms !! Name v = Some v.
Proof.
  induction ms as [|m ms IH] using rev_ind; intros Hnd Hin.
  - by apply elem_of_nil in Hin.
  - rewrite fmap_app in Hnd. apply NoDup_app in Hnd as (Hnd & Hdisj & _).
    rewrite toMap_snoc. apply elem_of_app in Hin as [Hin|Hin].
    + rewrite lookup_insert_ne; [by apply IH|].
      intros Heq. apply (Hdisj (Name v)).
      * apply list_elem_of_fmap. by exists v.
      * rewrite <- Heq. cbn. by apply list_elem_of_singleton.
    + apply list_elem_of_singleton in Hin as ->. by rewrite lookup_insert_eq.
Qed.

(** ** The reconciliation loop *)

Lemma Diff_withComment (w v : Method) (c : string) :
  Diff w (withComment c v) = Diff w v.
Proof. reflexivity. Qed.

Lemma sameButMaps_refl (o : GenOpts) : sameButMaps o o.
Proof. by repeat split. Qed.

Lemma sameButMaps_trans (o1 o2 o3 : GenOpts) :
  sameButMaps o1 o2 -> sameButMaps o2 o3 -> sameButMaps o1 o3.
Proof.
  unfold sameButMaps. intros (?&?&?&?&?&?&?) (?&?&?&?&?&?&?).
  repeat split; congruence.
Qed.

Lemma GenOpts_eq (o o' : GenOpts) :
  sameButMaps o o' ->
  MethodBlacklist o' = MethodBlacklist o ->
  Comments o' = Comments o ->
  o' = o.
Proof.
  destruct o, o'. unfold sameButMaps. cbn. intros (?&?&?&?&?&?&?) ? ?.
  by subst.
Qed.

(** One round of the loop, on options whose maps are not nil: it does
    not panic and applies the decision for [v] at [k], leaving every
    other key alone. *)
Lemma reconcileOne_spec (eMap : gmap string Method) (k : string) (v : Method)
    (opts : GenOpts) (bl : gset string) (cm : gmap string string) :
  MethodBlacklist opts = Some bl ->
  Comments opts = Some cm ->
  exists opts' bl' cm',
    reconcileOne eMap k v opts = Ret opts'
    /\ sameButMaps opts opts'
    /\ MethodBlacklist opts' = Some bl'
    /\ Comments opts' = Some cm'
    /\ applied (decision eMap v) k bl bl' cm cm'
    /\ forall k', k' ≠ k -> (k' ∈ bl' <-> k' ∈ bl) /\ cm' !! k' = cm !! k'.
Proof.
  intros Hbl Hcm. unfold reconcileOne, decision.
  destruct (eMap !! Name v) as [w|].
  - destruct (decide (Diff w v = "")) as [Hd|Hd].
    + rewrite decide_False by (intros H; by apply H).
      unfold assignBlacklist. rewrite Hbl.
      exists (setMethodBlacklist (Some ({[k]} ∪ bl)) opts), ({[k]} ∪ bl), cm.
      split_and!; try done; cbn; set_solver.
    + rewrite decide_True by done.
      unfold assignComment, commentOf. rewrite Hcm.
      eexists (setComments (Some _) opts), bl, _.
      split; [reflexivity|]. split_and!; try done.
      * cbn. rewrite lookup_insert_eq. f_equal. unfold appendDiff.
        destruct (cm !! k) as [c|]; cbn.
        -- destruct (decide (c = "")) as [->|Hc].
           ++ by rewrite decide_False by (intros H; by apply H).
           ++ rewrite decide_True by done. by rewrite append_assoc.
        -- by rewrite decide_False by (intros H; by apply H).
      * intros k' Hk'. by rewrite lookup_insert_ne.
  - exists opts, bl, cm. split_and!; try done.
Qed.

(** The whole loop, over entries with distinct keys. *)
Lemma reconcile_spec (eMap : gmap string Method) (entries : list (string * Method))
    (opts : GenOpts) (bl : gset string) (cm : gmap string string) :
  NoDup entries.*1 ->
  MethodBlacklist opts = Some bl ->
  Comments opts = Some cm ->
  exists opts' bl' cm',
    reconcile eMap entries opts = Ret opts'
    /\ sameButMaps opts opts'
    /\ MethodBlacklist opts' = Some bl'
    /\ Comments opts' = Some cm'
    /\ (forall k v, (k, v) ∈ entries -> applied (decision eMap v) k bl bl' cm cm')
    /\ (forall k, k ∉ entries.*1 -> (k ∈ bl' <-> k ∈ bl) /\ cm' !! k = cm !! k).
Proof.
  revert opts bl cm. induction entries as [|[k0 v0] rest IH]; intros opts bl cm Hnd Hbl Hcm.
  - exists opts, bl, cm. split_and!; try done.
    intros k v H. by apply elem_of_nil in H.
  - cbn [reconcile]. rewrite fmap_cons in Hnd. apply NoDup_cons in Hnd as [Hk0 Hnd].
    destruct (reconcileOne_spec eMap k0 v0 opts bl cm Hbl Hcm)
      as (opts1 & bl1 & cm1 & -> & Hsame1 & Hbl1 & Hcm1 & Happ1 & Hoth1).
    cbn [mbind res_bind].
    destruct (IH opts1 bl1 cm1 Hnd Hbl1 Hcm1)
      as (opts' & bl' & cm' & -> & Hsame' & Hbl' & Hcm' & Happ' & Hoth').
    exists opts', bl', cm'. split_and!; try done.
    + by eapply sameButMaps_trans.
    + intros k v [[= -> ->]|Hin]%elem_of_cons.
      * destruct (Hoth' k0 Hk0) as [Hb Hc].
        unfold applied in *. destruct (decision eMap v0); rewrite Hb, Hc; exact Happ1.
      * assert (Hne : k ≠ k0).
        { intros ->. apply Hk0. apply list_elem_of_fmap. by exists (k0, v). }
        destruct (Hoth1 k Hne) as [Hb Hc]. specialize (Happ' k v Hin).
        unfold applied in *. destruct (decision eMap v); rewrite ?Hb, ?Hc in Happ'; exact Happ'.
    + intros k Hk. rewrite fmap_cons, not_elem_of_cons in Hk. destruct Hk as [Hne Hk].
      destruct (Hoth1 k Hne) as [Hb Hc]. destruct (Hoth' k Hk) as [Hb' Hc'].
      split; [by rewrite Hb', Hb | by rewrite Hc', Hc].
Qed.

Lemma sameButMaps_sym (o1 o2 : GenOpts) : sameButMaps o1 o2 -> sameButMaps o2 o1.
Proof. unfold sameButMaps. intros (?&?&?&?&?&?&?). by split_and!. Qed.

(** Go leaves the order of [range rMap] open: on entries with distinct
    keys the loop gives the same options in every order. *)
Lemma reconcile_Permutation (eMap : gmap string Method)
    (e1 e2 : list (string * Method)) (opts : GenOpts)
    (bl : gset string) (cm : gmap string string) :
  NoDup e1.*1 -> e1 ≡ₚ e2 ->
  MethodBlacklist opts = Some bl -> Comments opts = Some cm ->
  reconcile eMap e1 opts = reconcile eMap e2 opts.
Proof.
  intros Hnd1 Hperm Hbl Hcm.
  assert (Hnd2 : NoDup e2.*1) by (by rewrite <- Hperm).
  destruct (reconcile_spec eMap e1 opts bl cm Hnd1 Hbl Hcm)
    as (o1 & bl1 & cm1 & -> & Hs1 & Hb1 & Hc1 & Hin1 & Hout1).
  destruct (reconcile_spec eMap e2 opts bl cm Hnd2 Hbl Hcm)
    as (o2 & bl2 & cm2 & -> & Hs2 & Hb2 & Hc2 & Hin2 & Hout2).
  f_equal. symmetry. apply GenOpts_eq.
  - eapply sameButMaps_trans; [apply sameButMaps_sym, Hs1 | apply Hs2].
  - rewrite Hb1, Hb2. f_equal. apply set_eq. intros k.
    destruct (decide (k ∈ e1.*1)) as [Hk|Hk].
    + apply list_elem_of_fmap in Hk as ([k' v] & -> & Hkv). cbn [fst].
      pose proof (Hin1 _ _ Hkv) as H1. rewrite Hperm in Hkv.
      pose proof (Hin2 _ _ Hkv) as H2. unfold applied in *.
      destruct (decision eMap v); naive_solver.
    + destruct (Hout1 k Hk) as [-> _]. rewrite Hperm in Hk.
      by destruct (Hout2 k Hk) as [-> _].
  - rewrite Hc1, Hc2. f_equal. apply map_eq. intros k.
    destruct (decide (k ∈ e1.*1)) as [Hk|Hk].
    + apply list_elem_of_fmap in Hk as ([k' v] & -> & Hkv). cbn [fst].
      pose proof (Hin1 _ _ Hkv) as H1. rewrite Hperm in Hkv.
      pose proof (Hin2 _ _ Hkv) as H2. unfold applied in *.
      destruct (decision eMap v); naive_solver congruence.
    + destruct (Hout1 k Hk) as [_ ->]. rewrite Hperm in Hk.
      by destruct (Hout2 k Hk) as [_ ->].
Qed.

(** ** Stripping the receiver *)

Lemma stripReceiver_cons (m : Method) (ms : list Method) :
  stripReceiver (m :: ms) =
    match Inputs m with
    | [] => Panic "slice bounds out of range"
    | _ :: ins =>
        match stripReceiver ms with
        | Ret rest => Ret (withInputs ins m :: rest)
        | Err e => Err e
        | Panic p => Panic p
        end
    end.
Proof. reflexivity. Qed.

Lemma stripReceiver_Ret (ms : list Method) :
  Forall (fun m => Inputs m ≠ []) ms ->
  stripReceiver ms = Ret ((fun m => withInputs (tail (Inputs m)) m) <$> ms).
Proof.
  induction 1 as [|m ms Hm _ IH]; [done|].
  rewrite stripReceiver_cons, IH. rewrite fmap_cons.
  destruct (Inputs m) as [|a ins] eqn:E; [by destruct Hm|]. reflexivity.
Qed.

Lemma stripReceiver_inv (ms em : list Method) :
  stripReceiver ms = Ret em ->
  em = (fun m => withInputs (tail (Inputs m)) m) <$> ms.
Proof.
  revert em. induction ms as [|m ms IH]; intros em.
  - by intros [= <-].
  - rewrite stripReceiver_cons. destruct (Inputs m) as [|a ins] eqn:Hm; [done|].
    destruct (stripReceiver ms) as [rest| |]; [|done..].
    intros [= <-]. rewrite fmap_cons, Hm. by rewrite (IH rest).
Qed.

Lemma Inputs_methodFor (opts : GenOpts) (ft : RMethodOf rtype) :
  aType <$> Inputs (methodFor opts ft) = mIn ft
  /\ aType <$> Outputs (methodFor opts ft) = mOut ft.
Proof.
  assert (H : aType <$> Inputs (MethodOf (First (ImplName opts)) ft) = mIn ft
              /\ aType <$> Outputs (MethodOf (First (ImplName opts)) ft) = mOut ft).
  { rewrite MethodOf_unfold. cbn [Inputs Outputs].
    split; eapply proj1, nameArgs_spec. }
  unfold methodFor. by destruct (commentOf opts (mName ft)).
Qed.

Lemma stripReceiver_Methods (opts : GenOpts) (et : rtype) :
  Forall (fun ft => mIn ft ≠ []) (tMethods et) ->
  stripReceiver (Methods opts et) =
    Ret ((fun m => withInputs (tail (Inputs m)) m) <$> Methods opts et).
Proof.
  intros Hall. apply stripReceiver_Ret. apply Forall_forall.
  intros m (ft & Hft & _ & ->)%elem_of_Methods.
  rewrite Forall_forall in Hall. specialize (Hall ft Hft).
  destruct (Inputs_methodFor opts ft) as [Hi _].
  intros Hnil. rewrite Hnil in Hi. by symmetry in Hi.
Qed.

(** ** [handleExisting] on a run that reaches the matching *)

Lemma handleExisting_run (opts : GenOpts) (et : rtype) (em : list Method)
    (bl : gset string) (cm : gmap string string) :
  Existing opts = Some et ->
  ImplName opts = "" -> PkgName opts = "" ->
  MethodBlacklist opts = Some bl -> Comments opts = Some cm ->
  stripReceiver (Methods opts et) = Ret em ->
  exists opts' bl' cm',
    handleExisting opts = (opts', Ret tt)
    /\ PkgName opts' = (existingTarget et).1
    /\ ImplName opts' = (existingTarget et).2
    /\ (Inter opts' = Inter opts /\ Existing opts' = Existing opts
        /\ NoNamedReturnValues opts' = NoNamedReturnValues opts
        /\ NoGoImports opts' = NoGoImports opts /\ Extra opts' = Extra opts)
    /\ MethodBlacklist opts' = Some bl'
    /\ Comments opts' = Some cm'
    /\ (forall k v, toMap (Methods opts (Inter opts)) !! k = Some v ->
          applied (decision (toMap em) v) k bl bl' cm cm')
    /\ (forall k, toMap (Methods opts (Inter opts)) !! k = None ->
          (k ∈ bl' <-> k ∈ bl) /\ cm' !! k = cm !! k).
Proof.
  intros Hex Himpl Hpkg Hbl Hcm Hem. unfold handleExisting.
  rewrite Hex, Himpl, Hpkg, Hem.
  rewrite !decide_False by (intros H; by apply H).
  set (rMap := toMap (Methods opts (Inter opts))).
  destruct (reconcile_spec (toMap em) (map_to_list rMap) opts bl cm
              (NoDup_fst_map_to_list rMap) Hbl Hcm)
    as (o1 & bl' & cm' & -> & Hsame & Hbl' & Hcm' & Hin & Hout).
  destruct Hsame as (Hp & Hi & Hinter & Hexi & Hnn & Hng & Hextra).
  assert (Hrest : forall o2, PkgName o2 = (existingTarget et).1 ->
            ImplName o2 = (existingTarget et).2 ->
            Inter o2 = Inter o1 -> Existing o2 = Existing o1 ->
            NoNamedReturnValues o2 = NoNamedReturnValues o1 ->
            NoGoImports o2 = NoGoImports o1 -> Extra o2 = Extra o1 ->
            MethodBlacklist o2 = MethodBlacklist o1 -> Comments o2 = Comments o1 ->
            exists opts' bl'0 cm'0,
              (o2, Ret tt) = (opts', Ret tt)
              /\ PkgName opts' = (existingTarget et).1
              /\ ImplName opts' = (existingTarget et).2
              /\ (Inter opts' = Inter opts /\ Existing opts' = Some et
                  /\ NoNamedReturnValues opts' = NoNamedReturnValues opts
                  /\ NoGoImports opts' = NoGoImports opts /\ Extra opts' = Extra opts)
              /\ MethodBlacklist opts' = Some bl'0
              /\ Comments opts' = Some cm'0
              /\ (forall k v, rMap !! k = Some v ->
                    applied (decision (toMap em) v) k bl bl'0 cm cm'0)
              /\ (forall k, rMap !! k = None ->
                    (k ∈ bl'0 <-> k ∈ bl) /\ cm'0 !! k = cm !! k)).
  { intros o2 H1 H2 H3 H4 H5 H6 H7 H8 H9. exists o2, bl', cm'.
    split_and!; try congruence.
    - intros k v Hkv. apply Hin. by apply elem_of_map_to_list.
    - intros k Hk. apply Hout. intros ([k' v] & -> & Hkv)%list_elem_of_fmap.
      apply elem_of_map_to_list in Hkv. cbn in Hk. congruence. }
  unfold existingTarget in *.
  destruct (tKind et) as [elem| | | | | |].
  1: destruct (packageAndName elem) as [pkg name] eqn:Hpn.
  2-7: destruct (packageAndName et) as [pkg name] eqn:Hpn.
  all: cbn beta iota zeta; cbn [fst snd] in *; apply Hrest; reflexivity.
Qed.

Lemma required_lookup (opts : GenOpts) (ft : RMethodOf rtype) :
  NoDup (mName <$> tMethods (Inter opts)) ->
  ft ∈ tMethods (Inter opts) ->
  toMap (Methods opts (Inter opts)) !! mName ft =
    if blacklisted opts (mName ft) then None else Some (methodFor opts ft).
Proof.
  intros Hnd Hft. destruct (blacklisted opts (mName ft)) eqn:Hb.
  - apply toMap_lookup_None. rewrite Methods_names.
    intros Hin%list_elem_of_In%filter_In. destruct Hin as [_ Hin].
    by rewrite Hb in Hin.
  - rewrite <- (Name_methodFor opts ft). apply toMap_lookup_NoDup.
    + rewrite Methods_names. by apply NoDup_filter_list.
    + apply elem_of_Methods. by exists ft.
Qed.

Lemma existing_lookup (opts : GenOpts) (et : rtype) (em : list Method)
    (k : string) (have : Method) :
  stripReceiver (Methods opts et) = Ret em ->
  toMap em !! k = Some have ->
  blacklisted opts k = false
  /\ exists fe, fe ∈ tMethods et /\ mName fe = k
       /\ aType <$> Inputs have = tail (mIn fe)
       /\ aType <$> Outputs have = mOut fe.
Proof.
  intros Hem%stripReceiver_inv [Hin Hname]%toMap_lookup_Some. subst em.
  apply list_elem_of_fmap in Hin as (m & -> & Hm).
  apply elem_of_Methods in Hm as (fe & Hfe & Hb & ->).
  destruct (Inputs_methodFor opts fe) as [Hi Ho].
  assert (Hk : mName fe = k) by (rewrite <- Hname; symmetry; apply Name_methodFor).
  split; [by rewrite <- Hk|]. exists fe. split_and!; try done.
  cbn [withInputs Inputs]. rewrite <- Hi. by destruct (Inputs (methodFor opts fe)).
Qed.

(** C1. On a run that reaches the matching, every method [ft] of the
    interface is classified one way against the existing methods [em]
    (those of the existing type, each without its first input).  When
    [ft] has no namesake there, the blacklist and the comment at its
    name are as before.  When it has one, [have], and the diff of
    [have] against the required signature is empty, its name is in the
    blacklist and its comment is as before.  When the diff is not
    empty, its name is not in the blacklist and its comment is the diff
    text, after the earlier comment and one space when a non-empty
    comment was there. *)
Theorem handleExisting_classifies (opts : GenOpts) (et : rtype)
    (bl : gset string) (cm : gmap string string) (ft : RMethodOf rtype) :
  Existing opts = Some et ->
  ImplName opts = "" -> PkgName opts = "" ->
  MethodBlacklist opts = Some bl -> Comments opts = Some cm ->
  Forall (fun m => mIn m ≠ []) (tMethods et) ->
  NoDup (mName <$> tMethods (Inter opts)) ->
  ft ∈ tMethods (Inter opts) ->
  exists opts' bl' cm' em,
    handleExisting opts = (opts', Ret tt)
    /\ MethodBlacklist opts' = Some bl'
    /\ Comments opts' = Some cm'
    /\ stripReceiver (Methods opts et) = Ret em
    /\ let k := mName ft in
       let want := MethodOf (First (ImplName opts)) ft in
       match toMap em !! k with
       | None => (k ∈ bl' <-> k ∈ bl) /\ cm' !! k = cm !! k
       | Some have =>
           (exists fe, fe ∈ tMethods et /\ mName fe = k
              /\ aType <$> Inputs have = tail (mIn fe)
              /\ aType <$> Outputs have = mOut fe)
           /\ if decide (Diff have want = "")
              then k ∈ bl' /\ cm' !! k = cm !! k
              else (k ∉ bl') /\ cm' !! k = Some (appendDiff (cm !! k) (Diff have want))
       end.
Proof.
  intros Hex Himpl Hpkg Hbl Hcm Hrecv Hnd Hft.
  pose proof (stripReceiver_Methods opts et Hrecv) as Hem.
  destruct (handleExisting_run opts et _ bl cm Hex Himpl Hpkg Hbl Hcm Hem)
    as (opts' & bl' & cm' & Hrun & _ & _ & _ & Hbl' & Hcm' & Hin & Hout).
  exists opts', bl', cm'. eexists. split_and!; try done. cbv zeta.
  pose proof (required_lookup opts ft Hnd Hft) as Hreq.
  assert (Hdiff : forall have, Diff have (methodFor opts ft)
                    = Diff have (MethodOf (First (ImplName opts)) ft)).
  { intros have. unfold methodFor. by destruct (commentOf opts (mName ft)). }
  set (em := (fun m => withInputs (tail (Inputs m)) m) <$> Methods opts et) in *.
  destruct (toMap em !! mName ft) as [have|] eqn:Hlook.
  - destruct (existing_lookup opts et _ _ have Hem Hlook) as [Hb Hfe].
    split; [done|]. rewrite Hb in Hreq. specialize (Hin _ _ Hreq).
    unfold applied, decision in Hin. rewrite Name_methodFor, Hlook, Hdiff in Hin.
    destruct (decide (Diff have (MethodOf (First (ImplName opts)) ft) = "")); [done|].
    destruct Hin as [Hiff Hc]. split; [|done].
    rewrite Hiff. unfold blacklisted in Hb. rewrite Hbl in Hb.
    by apply bool_decide_eq_false in Hb.
  - destruct (blacklisted opts (mName ft)).
    + by apply Hout.
    + specialize (Hin _ _ Hreq). unfold applied, decision in Hin.
      by rewrite Name_methodFor, Hlook in Hin.
Qed.

Lemma handleExisting_classifies_witness :
  (Existing SampleRun.opts = Some Sample.AlmostClientCodec
   /\ ImplName SampleRun.opts = "" /\ PkgName SampleRun.opts = ""
   /\ MethodBlacklist SampleRun.opts = Some ∅ /\ Comments SampleRun.opts = Some ∅
   /\ Forall (fun m => mIn m ≠ []) (tMethods Sample.AlmostClientCodec)
   /\ NoDup (mName <$> tMethods (Inter SampleRun.opts))
   /\ SampleRun.Close ∈ tMethods (Inter SampleRun.opts))
  /\ exists opts' bl' cm' em,
    handleExisting SampleRun.opts = (opts', Ret tt)
    /\ MethodBlacklist opts' = Some bl'
    /\ Comments opts' = Some cm'
    /\ stripReceiver (Methods SampleRun.opts Sample.AlmostClientCodec) = Ret em
    /\ let k := mName SampleRun.Close in
       let want := MethodOf (First (ImplName SampleRun.opts)) SampleRun.Close in
       match toMap em !! k with
       | None => (k ∈ bl' <-> k ∈ (∅ : gset string)) /\ cm' !! k = (∅ : gmap string string) !! k
       | Some have =>
           (exists fe, fe ∈ tMethods Sample.AlmostClientCodec /\ mName fe = k
              /\ aType <$> Inputs have = tail (mIn fe)
              /\ aType <$> Outputs have = mOut fe)
           /\ if decide (Diff have want = "")
              then k ∈ bl' /\ cm' !! k = (∅ : gmap string string) !! k
              else (k ∉ bl')
                   /\ cm' !! k = Some (appendDiff ((∅ : gmap string string) !! k) (Diff have want))
       end.
Proof.
  assert (H6 : Forall (fun m : RMethodOf rtype => mIn m ≠ [])
                 (tMethods Sample.AlmostClientCodec))
    by (repeat (constructor; [discriminate|]); constructor).
  assert (H7 : NoDup (mName <$> tMethods (Inter SampleRun.opts)))
    by (apply (bool_decide_unpack _); vm_compute; exact I).
  assert (H8 : SampleRun.Close ∈ tMethods (Inter SampleRun.opts))
    by (apply list_elem_of_In; left; reflexivity).
  split; [by split_and!|].
  exact (handleExisting_classifies SampleRun.opts Sample.AlmostClientCodec ∅ ∅
           SampleRun.Close eq_refl eq_refl eq_refl eq_refl eq_refl H6 H7 H8).
Defined.

Example handleExisting_sample :
  let opts' := (handleExisting SampleRun.opts).1 in
  (handleExisting SampleRun.opts).2 = Ret tt
  /\ (elements <$> MethodBlacklist opts') = Some ["ReadResponseHeader"]
  /\ commentOf opts' "Close" = Some "number of inputs: had 1, want 0"
  /\ commentOf opts' "ReadResponseBody" = None
  /\ (PkgName opts', ImplName opts') = ("goimpl", "AlmostClientCodec").
Proof. vm_compute. done. Qed.

(** ** What [handleExisting] leaves alone *)

Lemma reconcileOne_frame (eMap : gmap string Method) (k : string) (v : Method)
    (o o' : GenOpts) :
  reconcileOne eMap k v o = Ret o' -> sameButMaps o o'.
Proof.
  unfold reconcileOne, assignComment, assignBlacklist.
  destruct (eMap !! Name v); [|by intros [= <-]; apply sameButMaps_refl].
  case_decide.
  - destruct (Comments o); [|done]. intros [= <-]. by repeat split.
  - destruct (MethodBlacklist o); [|done]. intros [= <-]. by repeat split.
Qed.

Lemma reconcile_frame (eMap : gmap string Method) (entries : list (string * Method))
    (o o' : GenOpts) :
  reconcile eMap entries o = Ret o' -> sameButMaps o o'.
Proof.
  revert o. induction entries as [|[k v] rest IH]; intros o; cbn [reconcile].
  - intros [= <-]. apply sameButMaps_refl.
  - destruct (reconcileOne eMap k v o) as [o1| |] eqn:H1; cbn [mbind res_bind]; [|done..].
    intros H2. eapply sameButMaps_trans; [by eapply reconcileOne_frame | by apply IH].
Qed.

(** Whatever it is given and however it ends, [handleExisting] changes
    none of [Inter], [Existing], [NoNamedReturnValues], [NoGoImports]
    and [Extra]. *)
Lemma handleExisting_frame (opts : GenOpts) :
  let o' := (handleExisting opts).1 in
  Inter o' = Inter opts /\ Existing o' = Existing opts
  /\ NoNamedReturnValues o' = NoNamedReturnValues opts
  /\ NoGoImports o' = NoGoImports opts /\ Extra o' = Extra opts.
Proof.
  cbv zeta. unfold handleExisting.
  destruct (Existing opts) as [et|] eqn:Hex; [|by cbn [fst]; rewrite ?Hex].
  repeat case_decide; try (by cbn [fst]; rewrite ?Hex).
  destruct (stripReceiver (Methods opts et)) as [em| |]; try (by cbn [fst]; rewrite ?Hex).
  destruct (reconcile _ _ opts) as [o1| |] eqn:Hrec; try (by cbn [fst]; rewrite ?Hex).
  apply reconcile_frame in Hrec as (_ & _ & Hi & He & Hn & Hg & Hx).
  destruct (tKind et); destruct (packageAndName _); cbn; by rewrite <- ?Hex.
Qed.

(** A run of [handleExisting] that does not reach the matching leaves
    the options as they are. *)
Lemma handleExisting_not_Ret (opts : GenOpts) :
  (handleExisting opts).2 ≠ Ret tt -> (handleExisting opts).1 = opts.
Proof.
  unfold handleExisting.
  destruct (Existing opts) as [et|]; [|done].
  repeat case_decide; try done.
  destruct (stripReceiver (Methods opts et)) as [em| |]; try done.
  destruct (reconcile _ _ opts) as [o1| |]; try done.
  destruct (tKind et); destruct (packageAndName _); done.
Qed.

Lemma initMaps_maps (opts : GenOpts) :
  MethodBlacklist (initMaps opts) = Some (default ∅ (MethodBlacklist opts))
  /\ Comments (initMaps opts) = Some (default ∅ (Comments opts))
  /\ sameButMaps opts (initMaps opts).
Proof.
  unfold initMaps, sameButMaps.
  destruct (MethodBlacklist opts) eqn:Hb; cbn [Comments setMethodBlacklist];
    destruct (Comments opts) eqn:Hc; cbn; rewrite ?Hb, ?Hc; done.
Qed.

Lemma handleExisting_config (opts : GenOpts) (et : rtype) :
  Existing opts = Some et ->
  ImplName opts ≠ "" \/ PkgName opts ≠ "" ->
  exists msg,
    handleExisting opts = (opts, Err msg)
    /\ (msg = "only one of ImplName and existing should be set."
        \/ msg = "only one of PkgName and existing should be set.").
Proof.
  intros Hex Hset. unfold handleExisting. rewrite Hex.
  destruct (decide (ImplName opts ≠ "")) as [|Hi0]; [eexists; split; [done|by left]|].
  destruct (decide (PkgName opts ≠ "")) as [|Hp0]; [eexists; split; [done|by right]|].
  by destruct Hset.
Qed.

(** ** [Generate] *)

Section GenerateProperties.
Variable File : Type.
Variable ParseFile : string -> File + string.
Variable Fprint : File -> string + string.
Variable Process : string -> string + string.
Variable out : Writer.

Local Abbreviation Gen := (Generate File ParseFile Fprint Process out).

Lemma writeOut_opts (o : GenOpts) (sink bts : string) :
  (writeOut out o sink bts).1.1 = o.
Proof. unfold writeOut. by destruct (out bts). Qed.

Lemma Generate_finalOpts (opts : GenOpts) (sink : string) :
  (Gen opts sink).1.1 = finalOpts opts.
Proof.
  unfold Generate, finalOpts. fold (initMaps opts).
  destruct (handleExisting (initMaps opts)) as [o [[]| |]]; [|done..].
  destruct (ParseFile _); [|done].
  destruct (Fprint _); [|done].
  destruct (NoGoImports _); [apply writeOut_opts|].
  destruct (Process _); [apply writeOut_opts | done].
Qed.

(** C3. An existing type together with a non-empty [ImplName] or a
    non-empty [PkgName] makes [Generate] fail with one of the two
    configuration errors: the options are as given but for the nil maps
    made empty, so no entry is added to the blacklist or the comments,
    and the sink is as it was. *)
Theorem Generate_config_error (opts : GenOpts) (sink : string) (et : rtype) :
  Existing opts = Some et ->
  ImplName opts ≠ "" \/ PkgName opts ≠ "" ->
  exists msg,
    Gen opts sink = (initMaps opts, sink, Err msg)
    /\ (msg = "only one of ImplName and existing should be set."
        \/ msg = "only one of PkgName and existing should be set.")
    /\ handleExisting (initMaps opts) = (initMaps opts, Err msg)
    /\ MethodBlacklist (initMaps opts) = Some (default ∅ (MethodBlacklist opts))
    /\ Comments (initMaps opts) = Some (default ∅ (Comments opts))
    /\ sameButMaps opts (initMaps opts).
Proof.
  intros Hex Hset.
  destruct (initMaps_maps opts) as (Hb & Hc & Hsame).
  pose proof Hsame as (Hp & Hi & _ & He & _).
  assert (Hh : exists msg, handleExisting (initMaps opts) = (initMaps opts, Err msg)
            /\ (msg = "only one of ImplName and existing should be set."
                \/ msg = "only one of PkgName and existing should be set.")).
  { apply (handleExisting_config (initMaps opts) et); [congruence|].
    by rewrite Hi, Hp. }
  destruct Hh as (msg & Hh & Hmsg). exists msg. split_and!; try done.
  unfold Generate. fold (initMaps opts). by rewrite Hh.
Qed.
End GenerateProperties.

Lemma Generate_config_error_witness :
  (Existing SampleIO.optsBoth = Some Sample.AlmostClientCodec
   /\ (ImplName SampleIO.optsBoth ≠ "" \/ PkgName SampleIO.optsBoth ≠ ""))
  /\ exists msg,
    Generate string SampleIO.parse SampleIO.print SampleIO.process SampleIO.fullWriter
        SampleIO.optsBoth "" = (initMaps SampleIO.optsBoth, "", Err msg)
    /\ (msg = "only one of ImplName and existing should be set."
        \/ msg = "only one of PkgName and existing should be set.")
    /\ handleExisting (initMaps SampleIO.optsBoth) = (initMaps SampleIO.optsBoth, Err msg)
    /\ MethodBlacklist (initMaps SampleIO.optsBoth)
         = Some (default ∅ (MethodBlacklist SampleIO.optsBoth))
    /\ Comments (initMaps SampleIO.optsBoth) = Some (default ∅ (Comments SampleIO.optsBoth))
    /\ sameButMaps SampleIO.optsBoth (initMaps SampleIO.optsBoth).
Proof.
  assert (H : ImplName SampleIO.optsBoth ≠ "" \/ PkgName SampleIO.optsBoth ≠ "")
    by (left; discriminate).
  split; [by split|].
  exact (Generate_config_error string SampleIO.parse SampleIO.print SampleIO.process
           SampleIO.fullWriter SampleIO.optsBoth "" Sample.AlmostClientCodec eq_refl H).
Defined.

Section GenerateErrors.
Variable File : Type.
Variable ParseFile : string -> File + string.
Variable Fprint : File -> string + string.
Variable Process : string -> string + string.
Variable out : Writer.

Local Abbreviation Gen := (Generate File ParseFile Fprint Process out).

(** C8, as the code has it. When the text of the template does not
    parse, [Generate] returns the error "Error parsing generated code: "
    followed by the parser's message, which is all the error carries,
    and the sink is as it was.  On every path [Generate] either leaves
    the sink as it was and does not succeed, or has called [Write] once,
    as its last step, on the complete printed text: the sink then holds
    the bytes [Write] took, and [Generate] returns what [Write]
    returned. *)
Theorem Generate_error_paths (opts : GenOpts) (sink : string) :
  let o' := (Gen opts sink).1.1 in
  let sink' := (Gen opts sink).1.2 in
  let r := (Gen opts sink).2 in
  (forall err,
      (handleExisting (initMaps opts)).2 = Ret tt ->
      ParseFile (Execute o') = inr err ->
      r = Err ("Error parsing generated code: " +:+ err) /\ sink' = sink)
  /\ ((sink' = sink /\ r ≠ Ret tt)
      \/ exists astFile b bts,
           (handleExisting (initMaps opts)).2 = Ret tt
           /\ ParseFile (Execute o') = inl astFile
           /\ Fprint astFile = inl b
           /\ (if NoGoImports o' then bts = b else Process b = inl bts)
           /\ sink' = sink +:+ takeBytes (out bts).1 bts
           /\ r = match (out bts).2 with None => Ret tt | Some e => Err e end).
Proof.
  cbv zeta. unfold Generate. fold (initMaps opts).
  destruct (handleExisting (initMaps opts)) as [o [[]| |]]; cbn [fst snd];
    [|by split; [|left]..].
  set (o1 := if decide (PkgName o = "") then _ else o).
  destruct (ParseFile (Execute o1)) as [astFile|perr] eqn:Hparse.
  2: { cbn [fst snd]. rewrite Hparse. split; [by intros err _ [= <-]|by left]. }
  destruct (Fprint astFile) as [b|e] eqn:Hprint.
  2: { cbn [fst snd]. rewrite Hparse. split; [done|by left]. }
  assert (Hw : forall bts,
    (if NoGoImports o1 then bts = b else Process b = inl bts) ->
    (forall err, Ret () = Ret () ->
       ParseFile (Execute (writeOut out o1 sink bts).1.1) = inr err ->
       (writeOut out o1 sink bts).2 = Err ("Error parsing generated code: " +:+ err)
       /\ (writeOut out o1 sink bts).1.2 = sink)
    /\ (((writeOut out o1 sink bts).1.2 = sink /\ (writeOut out o1 sink bts).2 ≠ Ret ())
        \/ exists astFile0 b0 bts0,
             Ret () = Ret ()
             /\ ParseFile (Execute (writeOut out o1 sink bts).1.1) = inl astFile0
             /\ Fprint astFile0 = inl b0
             /\ (if NoGoImports (writeOut out o1 sink bts).1.1 then bts0 = b0
                 else Process b0 = inl bts0)
             /\ (writeOut out o1 sink bts).1.2 = sink +:+ takeBytes (out bts0).1 bts0
             /\ (writeOut out o1 sink bts).2
                = match (out bts0).2 with None => Ret () | Some e => Err e end)).
  { intros bts Hbts. rewrite writeOut_opts, Hparse. split; [done|].
    right. exists astFile, b, bts. split_and!; try done.
    all: unfold writeOut; by destruct (out bts). }
  destruct (NoGoImports o1) eqn:Hng.
  - by apply Hw.
  - destruct (Process b) as [bts|e] eqn:Hproc.
    + by apply Hw.
    + cbn [fst snd]. rewrite Hparse. split; [done|by left].
Qed.
End GenerateErrors.

(** C8 as worded has the error carry the assembled text and has no
    output reach the sink on any error path.  On the third test case
    the error is the parser's message behind a fixed prefix, and the
    assembled text does not occur in it; with a writer that takes ten
    bytes and fails, [Generate] fails and the sink holds ten bytes. *)
Lemma Generate_parse_error_counterexample :
  let g := Generate string SampleIO.parse SampleIO.print SampleIO.process
             SampleIO.fullWriter SampleIO.optsBad "" in
  let h := Generate string SampleIO.parse SampleIO.print SampleIO.process
             SampleIO.shortWriter Sample.opts1 "" in
  SampleIO.parse (Execute g.1.1) = inr "dummy.go:12:9: expected type, found '-'"
  /\ g.2 = Err "Error parsing generated code: dummy.go:12:9: expected type, found '-'"
  /\ String.index 0 (Execute g.1.1)
       "Error parsing generated code: dummy.go:12:9: expected type, found '-'" = None
  /\ h.2 = Err "short write"
  /\ h.1.2 = takeBytes 10 (Execute h.1.1)
  /\ String.length h.1.2 = 10.
Proof. vm_compute. done. Qed.

(** ** The options after [handleExisting] *)

(** On options whose maps are not nil, [handleExisting] either leaves
    the options as they are, or has an existing type, no names given,
    and runs the matching. *)
Lemma handleExisting_cases (opts : GenOpts) (bl : gset string) (cm : gmap string string) :
  MethodBlacklist opts = Some bl -> Comments opts = Some cm ->
  ((handleExisting opts).1 = opts
   /\ (Existing opts = None -> (handleExisting opts).2 = Ret tt)
   /\ (forall et, Existing opts = Some et -> (handleExisting opts).2 = Ret tt -> False))
  \/ exists et em bl' cm',
       Existing opts = Some et /\ ImplName opts = "" /\ PkgName opts = ""
       /\ stripReceiver (Methods opts et) = Ret em
       /\ (handleExisting opts).2 = Ret tt
       /\ PkgName (handleExisting opts).1 = (existingTarget et).1
       /\ ImplName (handleExisting opts).1 = (existingTarget et).2
       /\ MethodBlacklist (handleExisting opts).1 = Some bl'
       /\ Comments (handleExisting opts).1 = Some cm'
       /\ (forall k v, toMap (Methods opts (Inter opts)) !! k = Some v ->
             applied (decision (toMap em) v) k bl bl' cm cm')
       /\ (forall k, toMap (Methods opts (Inter opts)) !! k = None ->
             (k ∈ bl' <-> k ∈ bl) /\ cm' !! k = cm !! k).
Proof.
  intros Hbl Hcm.
  destruct (Existing opts) as [et|] eqn:Hex.
  2: { left. unfold handleExisting. rewrite Hex. by split_and!. }
  destruct (decide (ImplName opts = "")) as [Hi|Hi].
  2: { left. unfold handleExisting. rewrite Hex, decide_True by done.
       by split_and!. }
  destruct (decide (PkgName opts = "")) as [Hp|Hp].
  2: { left. unfold handleExisting.
       rewrite Hex, decide_False, decide_True by (done || by intros H; apply H).
       by split_and!. }
  destruct (stripReceiver (Methods opts et)) as [em|e|p] eqn:Hem.
  - right.
    destruct (handleExisting_run opts et em bl cm Hex Hi Hp Hbl Hcm Hem)
      as (o' & bl' & cm' & Hrun & Hpk & Him & _ & Hb' & Hc' & Hin & Hout).
    exists et, em, bl', cm'. rewrite Hrun. by split_and!.
  - left. unfold handleExisting.
    rewrite Hex, Hem, !decide_False by (intros H; by apply H). by split_and!.
  - left. unfold handleExisting.
    rewrite Hex, Hem, !decide_False by (intros H; by apply H). by split_and!.
Qed.

Lemma finalOpts_fields (opts : GenOpts) :
  let h := handleExisting (initMaps opts) in
  Inter (finalOpts opts) = Inter h.1
  /\ Existing (finalOpts opts) = Existing h.1
  /\ NoNamedReturnValues (finalOpts opts) = NoNamedReturnValues h.1
  /\ NoGoImports (finalOpts opts) = NoGoImports h.1
  /\ Extra (finalOpts opts) = Extra h.1
  /\ MethodBlacklist (finalOpts opts) = MethodBlacklist h.1
  /\ Comments (finalOpts opts) = Comments h.1
  /\ ImplName (finalOpts opts) = ImplName h.1
  /\ PkgName (finalOpts opts) =
       match h.2 with
       | Ret _ => if decide (PkgName h.1 = "") then (packageAndName (Inter h.1)).1
                  else PkgName h.1
       | _ => PkgName h.1
       end.
Proof.
  cbv zeta. unfold finalOpts.
  destruct (handleExisting (initMaps opts)) as [o [[]| |]]; cbn [fst snd]; [|done..].
  by destruct (decide (PkgName o = "")).
Qed.

Section GenerateOptions.
Variable File : Type.
Variable ParseFile : string -> File + string.
Variable Fprint : File -> string + string.
Variable Process : string -> string + string.
Variable out : Writer.

Local Abbreviation Gen := (Generate File ParseFile Fprint Process out).

(** C9, as the code has it. [Generate] never changes [Inter],
    [Existing], [NoNamedReturnValues], [NoGoImports] and [Extra], and
    leaves neither map nil.  Without an existing type the maps are the
    caller's (empty when nil), [ImplName] is unchanged and an empty
    [PkgName] becomes the interface's package.  With an existing type
    and a name given, the call fails and only the nil maps are
    replaced.  With an existing type and no names, [ImplName] becomes
    the existing type's name, behind a star when that type is a
    pointer, and [PkgName] its package, or the interface's package
    when the existing type has none. *)
Theorem Generate_options (opts : GenOpts) (sink : string) :
  let o' := (Gen opts sink).1.1 in
  let orInter p := if decide (p = "") then (packageAndName (Inter opts)).1 else p in
  (Inter o' = Inter opts /\ Existing o' = Existing opts
   /\ NoNamedReturnValues o' = NoNamedReturnValues opts
   /\ NoGoImports o' = NoGoImports opts /\ Extra o' = Extra opts)
  /\ (is_Some (MethodBlacklist o') /\ is_Some (Comments o'))
  /\ (Existing opts = None ->
        MethodBlacklist o' = Some (default ∅ (MethodBlacklist opts))
        /\ Comments o' = Some (default ∅ (Comments opts))
        /\ ImplName o' = ImplName opts
        /\ PkgName o' = orInter (PkgName opts))
  /\ (forall et, Existing opts = Some et ->
        ImplName opts ≠ "" \/ PkgName opts ≠ "" ->
        o' = initMaps opts /\ ImplName o' = ImplName opts /\ PkgName o' = PkgName opts)
  /\ (forall et, Existing opts = Some et ->
        ImplName opts = "" -> PkgName opts = "" ->
        Forall (fun m => mIn m ≠ []) (tMethods et) ->
        match tKind et with
        | KPtr elem =>
            ImplName o' = "*" +:+ (packageAndName elem).2
            /\ PkgName o' = orInter (packageAndName elem).1
        | _ =>
            ImplName o' = (packageAndName et).2
            /\ PkgName o' = orInter (packageAndName et).1
        end).
Proof.
  cbv zeta. rewrite Generate_finalOpts.
  destruct (initMaps_maps opts) as (Hb & Hc & Hsame).
  pose proof Hsame as (Hp & Hi & Hinter & Hex & Hnn & Hng & Hextra).
  pose proof (handleExisting_frame (initMaps opts)) as Hfr. cbv zeta in Hfr.
  destruct Hfr as (F1 & F2 & F3 & F4 & F5).
  pose proof (finalOpts_fields opts) as Hf. cbv zeta in Hf.
  destruct Hf as (G1 & G2 & G3 & G4 & G5 & G6 & G7 & G8 & G9).
  pose proof (handleExisting_cases (initMaps opts) _ _ Hb Hc) as Hcases.
  split_and!.
  - congruence.
  - congruence.
  - congruence.
  - congruence.
  - congruence.
  - rewrite G6. destruct Hcases as [(-> & _)|(et & em & bl' & cm' & H)].
    + by rewrite Hb.
    + destruct H as (_ & _ & _ & _ & _ & _ & _ & -> & _). done.
  - rewrite G7. destruct Hcases as [(-> & _)|(et & em & bl' & cm' & H)].
    + by rewrite Hc.
    + destruct H as (_ & _ & _ & _ & _ & _ & _ & _ & -> & _). done.
  - intros Hnone. rewrite <- Hex in Hnone.
    destruct Hcases as [(Hsame' & Hret & _)|(et & em & bl' & cm' & H)].
    + rewrite G6, G7, G8, G9, Hret, Hsame' by done. rewrite Hinter, Hp, Hi. done.
    + destruct H as (Hsome & _). congruence.
  - intros et Hsome Hset.
    destruct (handleExisting_config (initMaps opts) et) as (msg & Hh & _);
      [congruence | by rewrite Hi, Hp |].
    unfold finalOpts. rewrite Hh. done.
  - intros et Hsome Himpl Hpkg Hrecv.
    destruct Hcases as [(_ & _ & Hno)|(et' & em & bl' & cm' & H)].
    + exfalso. apply (Hno et); [congruence|].
      destruct (handleExisting_run (initMaps opts) et _ _ _
                  (eq_trans Hex Hsome) (eq_trans Hi Himpl) (eq_trans Hp Hpkg) Hb Hc
                  (stripReceiver_Methods (initMaps opts) et Hrecv))
        as (o2 & ? & ? & -> & _). done.
    + destruct H as (Hsome' & _ & _ & _ & Hret & Hpk & Him & _).
      assert (et' = et) as -> by congruence.
      rewrite G8, G9, Hret, Him, Hpk, F1, Hinter. unfold existingTarget.
      destruct (tKind et); done.
Qed.
End GenerateOptions.

(** C9 as worded has an empty [PkgName] always replaced by the
    interface's package and, with an existing type, both names always
    taken from that type.  With an existing type and an [ImplName] the
    call fails and both names stay as given; with an existing value of
    a predeclared type the package is the interface's. *)
Lemma Generate_options_counterexample :
  let o1 := (Generate string SampleIO.parse SampleIO.print SampleIO.process
               SampleIO.fullWriter SampleIO.optsBoth "").1.1 in
  let o2 := (Generate string SampleIO.parse SampleIO.print SampleIO.process
               SampleIO.fullWriter SampleIO.optsInt "").1.1 in
  (PkgName SampleIO.optsBoth = "" /\ PkgName o1 = ""
   /\ (packageAndName (Inter SampleIO.optsBoth)).1 = "io")
  /\ (Existing SampleIO.optsBoth = Some Sample.AlmostClientCodec
      /\ ImplName o1 = "Impl"
      /\ packageAndName Sample.AlmostClientCodec = ("goimpl", "AlmostClientCodec"))
  /\ (Existing SampleIO.optsInt = Some Sample.int
      /\ (packageAndName Sample.int).1 = ""
      /\ PkgName o2 = "io").
Proof. vm_compute. done. Qed.

Example Generate_options_sample :
  let o := (Generate string SampleIO.parse SampleIO.print SampleIO.process
              SampleIO.fullWriter Sample.opts2 "").1.1 in
  (PkgName o, ImplName o) = ("goimpl", "AlmostClientCodec")
  /\ (elements <$> MethodBlacklist o) = Some ["ReadResponseHeader"].
Proof. vm_compute. done. Qed.

(** ** Methods blacklisted by the caller *)

Lemma blacklisted_not_in_Methods (o : GenOpts) (it : rtype) (name : string) :
  blacklisted o name = true -> name ∉ Name <$> Methods o it.
Proof.
  intros Hb. rewrite Methods_names.
  intros [_ Hin]%list_elem_of_In%filter_In. by rewrite Hb in Hin.
Qed.

Lemma blacklisted_initMaps (opts : GenOpts) (name : string) :
  blacklisted (initMaps opts) name = blacklisted opts name
  /\ commentOf (initMaps opts) name = commentOf opts name.
Proof.
  destruct (initMaps_maps opts) as (Hb & Hc & _).
  unfold blacklisted, commentOf. rewrite Hb, Hc.
  destruct (MethodBlacklist opts), (Comments opts); cbn; split; try done.
  all: by rewrite bool_decide_eq_false_2 by set_solver.
Qed.

Section GenerateBlacklist.
Variable File : Type.
Variable ParseFile : string -> File + string.
Variable Fprint : File -> string + string.
Variable Process : string -> string + string.
Variable out : Writer.

Local Abbreviation Gen := (Generate File ParseFile Fprint Process out).

(** C10. A method name the caller has put in the blacklist takes no
    part in the reconciliation: it is in neither of the two method
    lists that are matched, its comment after [Generate] is the
    caller's, it is still blacklisted, and the template ranges over no
    method of that name. *)
Theorem Generate_preblacklisted (opts : GenOpts) (sink name : string) :
  blacklisted opts name = true ->
  let o' := (Gen opts sink).1.1 in
  blacklisted o' name = true
  /\ commentOf o' name = commentOf opts name
  /\ (name ∉ Name <$> Methods (initMaps opts) (Inter opts))
  /\ (forall et, Existing opts = Some et -> name ∉ Name <$> Methods (initMaps opts) et)
  /\ (name ∉ Name <$> Methods o' (Inter o')).
Proof.
  intros Hbl. cbv zeta. rewrite Generate_finalOpts.
  destruct (blacklisted_initMaps opts name) as [Hb0 Hc0]. rewrite Hbl in Hb0.
  destruct (initMaps_maps opts) as (Hb & Hc & _).
  pose proof (finalOpts_fields opts) as Hf. cbv zeta in Hf.
  destruct Hf as (_ & _ & _ & _ & _ & G6 & G7 & _).
  assert (Hkeep : blacklisted (finalOpts opts) name = true
                  /\ commentOf (finalOpts opts) name = commentOf opts name).
  { unfold blacklisted, commentOf in *. rewrite G6, G7. rewrite Hb in Hb0. rewrite Hc in Hc0.
    destruct (handleExisting_cases (initMaps opts) _ _ Hb Hc)
      as [(-> & _)|(et & em & bl' & cm' & H)].
    - by rewrite Hb, Hc.
    - destruct H as (_ & _ & _ & _ & _ & _ & _ & -> & -> & _ & Hout).
      destruct (Hout name) as [Hiff Hcm].
      { apply toMap_lookup_None. apply blacklisted_not_in_Methods.
        unfold blacklisted. by rewrite Hb. }
      rewrite Hcm, Hc0. split; [|done].
      apply bool_decide_eq_true. apply Hiff. by apply bool_decide_eq_true in Hb0. }
  destruct Hkeep as [Hk1 Hk2]. split_and!; try done.
  - by apply blacklisted_not_in_Methods.
  - intros et _. by apply blacklisted_not_in_Methods.
  - by apply blacklisted_not_in_Methods.
Qed.
End GenerateBlacklist.

Lemma Generate_preblacklisted_witness :
  blacklisted SampleRun.optsNoClose "Close" = true
  /\ let o' := (Generate string SampleIO.parse SampleIO.print SampleIO.process
                  SampleIO.fullWriter SampleRun.optsNoClose "").1.1 in
     blacklisted o' "Close" = true
     /\ commentOf o' "Close" = commentOf SampleRun.optsNoClose "Close"
     /\ ("Close" ∉ Name <$> Methods (initMaps SampleRun.optsNoClose)
                              (Inter SampleRun.optsNoClose))
     /\ (forall et, Existing SampleRun.optsNoClose = Some et ->
           "Close" ∉ Name <$> Methods (initMaps SampleRun.optsNoClose) et)
     /\ ("Close" ∉ Name <$> Methods o' (Inter o')).
Proof.
  split; [reflexivity|].
  exact (Generate_preblacklisted string SampleIO.parse SampleIO.print SampleIO.process
           SampleIO.fullWriter SampleRun.optsNoClose "" "Close" eq_refl).
Defined.

(** The existing type has [Close(int) error], which does not match;
    blacklisted by the caller, [Close] gets no comment and no stub. *)
Example Generate_preblacklisted_sample :
  let g := Generate string SampleIO.parse SampleIO.print SampleIO.process
             SampleIO.fullWriter SampleRun.optsNoClose "" in
  commentOf g.1.1 "Close" = None
  /\ g.2 = Ret tt
  /\ String.index 0 "Close" g.1.2 = None
  /\ (elements <$> MethodBlacklist g.1.1) = Some ["Close"; "ReadResponseHeader"].
Proof. vm_compute. done. Qed.

(** ** The stubs *)

(** C7. The template renders one stub for each method of the interface
    that is not blacklisted, in the interface's order, and none for a
    blacklisted one; the body of each stub is the single statement
    [panic(errors.New("<ImplName>.<Name> not implemented"))]. *)
Theorem Execute_stubs (opts : GenOpts) :
  let rec := First (ImplName opts) in
  let ms := Methods opts (Inter opts) in
  Execute opts = renderHeader opts +:+ concat (List.map (renderMethod opts rec) ms) +:+ nl
  /\ Name <$> ms =
       List.filter (fun n => negb (blacklisted opts n)) (mName <$> tMethods (Inter opts))
  /\ Forall (fun m =>
       blacklisted opts (Name m) = false
       /\ exists head,
            renderMethod opts rec m =
              head +:+ ") {" +:+ nl +:+ tab
                +:+ "panic(errors.New(" +:+ dq +:+ ImplName opts +:+ "." +:+ Name m
                +:+ " not implemented" +:+ dq +:+ ")) }" +:+ nl) ms.
Proof.
  cbv zeta. split_and!.
  - reflexivity.
  - apply Methods_names.
  - apply Forall_forall. intros m Hm. split.
    + apply elem_of_Methods in Hm as (ft & _ & Hb & ->). by rewrite Name_methodFor.
    + unfold renderMethod, stubBody.
      exists (nl +:+ (if decide (Comment m ≠ "") then "// " +:+ Comment m +:+ " " else "")
                +:+ nl +:+ "func (" +:+ First (ImplName opts) +:+ " " +:+ ImplName opts
                +:+ ") " +:+ Name m +:+ " ("
                +:+ concat (List.map (renderInput opts) (Inputs m)) +:+ ") ("
                +:+ concat (List.map (renderOutput opts) (Outputs m))).
      repeat (rewrite append_assoc; try reflexivity).
Qed.

Example Execute_sample :
  Execute Sample.opts1 =
    nl +:+ nl +:+ "package pkg" +:+ nl +:+ nl +:+ "import (" +:+ nl
      +:+ tab +:+ dq +:+ "errors" +:+ dq +:+ nl +:+ tab +:+ ")" +:+ nl
      +:+ "type Impl struct{}" +:+ nl +:+ nl +:+ nl +:+ nl +:+ nl
      +:+ "func (i *Impl) Close () (  error  ) {" +:+ nl
      +:+ tab +:+ "panic(errors.New(" +:+ dq +:+ "*Impl.Close not implemented" +:+ dq
      +:+ ")) }" +:+ nl +:+ nl +:+ nl
      +:+ "func (i *Impl) Read ( u []uint8  ) (  int ,    error  ) {" +:+ nl
      +:+ tab +:+ "panic(errors.New(" +:+ dq +:+ "*Impl.Read not implemented" +:+ dq
      +:+ ")) }" +:+ nl +:+ nl.
Proof. vm_compute. reflexivity. Qed.

(** ** The clauses of C8 and C9 at the test cases *)

Lemma Generate_error_paths_witness :
  let g := Generate string SampleIO.parse SampleIO.print SampleIO.process
             SampleIO.fullWriter SampleIO.optsBad "" in
  ((handleExisting (initMaps SampleIO.optsBad)).2 = Ret tt
   /\ SampleIO.parse (Execute g.1.1) = inr "dummy.go:12:9: expected type, found '-'")
  /\ g.2 = Err ("Error parsing generated code: " +:+ "dummy.go:12:9: expected type, found '-'")
  /\ g.1.2 = "".
Proof.
  cbv zeta.
  assert (H1 : (handleExisting (initMaps SampleIO.optsBad)).2 = Ret tt) by reflexivity.
  assert (H2 : SampleIO.parse
                 (Execute (Generate string SampleIO.parse SampleIO.print SampleIO.process
                             SampleIO.fullWriter SampleIO.optsBad "").1.1)
               = inr "dummy.go:12:9: expected type, found '-'") by (vm_compute; reflexivity).
  split; [by split|].
  exact (proj1 (Generate_error_paths string SampleIO.parse SampleIO.print SampleIO.process
                  SampleIO.fullWriter SampleIO.optsBad "") _ H1 H2).
Defined.

Lemma Generate_options_witness :
  let o' := (Generate string SampleIO.parse SampleIO.print SampleIO.process
               SampleIO.fullWriter Sample.opts2 "").1.1 in
  (Existing Sample.opts2 = Some Sample.AlmostClientCodec
   /\ ImplName Sample.opts2 = "" /\ PkgName Sample.opts2 = ""
   /\ Forall (fun m => mIn m ≠ []) (tMethods Sample.AlmostClientCodec))
  /\ ImplName o' = (packageAndName Sample.AlmostClientCodec).2
  /\ PkgName o' =
       if decide ((packageAndName Sample.AlmostClientCodec).1 = "")
       then (packageAndName (Inter Sample.opts2)).1
       else (packageAndName Sample.AlmostClientCodec).1.
Proof.
  cbv zeta.
  assert (H : Forall (fun m : RMethodOf rtype => mIn m ≠ [])
                (tMethods Sample.AlmostClientCodec))
    by (repeat (constructor; [discriminate|]); constructor).
  split; [by split_and!|].
  exact (proj2 (proj2 (proj2 (proj2
           (Generate_options string SampleIO.parse SampleIO.print SampleIO.process
              SampleIO.fullWriter Sample.opts2 ""))))
           Sample.AlmostClientCodec eq_refl eq_refl eq_refl H).
Defined.

(** * Further properties of the package *)

(** ** [First], [Clean] and the candidate of [Short] *)

Lemma ToLower_letter (r : ascii) : IsLetter r = true -> isLower (ToLower r) = true.
Proof.
  destruct r as [[] [] [] [] [] [] [] []]; vm_compute; intros H;
    first [reflexivity | discriminate H].
Qed.

Lemma Split_app_sep (a b : string) (sep : ascii) :
  sep ∉ runes a -> Split (a +:+ String sep b) sep = a :: Split b sep.
Proof.
  induction a as [|c a IH]; intros Hno.
  - rewrite append_empty_l. cbn [Split]. by rewrite decide_True.
  - rewrite append_cons. cbn [Split runes] in *.
    apply not_elem_of_cons in Hno as [Hc Ha].
    rewrite decide_False by done. by rewrite IH.
Qed.

Lemma Split_app_suffix (a b : string) (sep : ascii) :
  exists h t, Split (a +:+ String sep b) sep = (h :: t) ++ Split b sep.
Proof.
  induction a as [|c a (h & t & IH)].
  - exists "", []. rewrite append_empty_l. cbn [Split]. by rewrite decide_True.
  - rewrite append_cons. cbn [Split]. rewrite IH.
    destruct (decide (c = sep)).
    + by exists "", (h :: t).
    + by exists (String c h), t.
Qed.

Lemma last_app_nonempty (l1 l2 : list string) (d : string) :
  l2 ≠ [] -> List.last (l1 ++ l2) d = List.last l2 d.
Proof.
  intros Hne. induction l1 as [|x l1 IH]; [done|].
  cbn [app List.last]. rewrite IH. destruct (l1 ++ l2) eqn:E; [|done].
  apply app_eq_nil in E as [_ ->]. done.
Qed.

Lemma lastPart_Split_app (a b : string) (sep : ascii) :
  lastPart (Split (a +:+ String sep b) sep) = lastPart (Split b sep).
Proof.
  unfold lastPart. destruct (Split_app_suffix a b sep) as (h & t & ->).
  apply last_app_nonempty, Split_nonempty.
Qed.

(** X1. [First] always returns exactly one character, a lowercase
    letter: the lowercase of a letter of its argument, or ["z"]. *)
Theorem First_one_lowercase (s : string) :
  exists c, First s = String c "" /\ isLower c = true.
Proof.
  rewrite First_unfold.
  pose proof (find_first IsLetter (runes (lastPart (Split s ".")))) as H.
  destruct (List.find IsLetter _) as [r|].
  - destruct H as (pre & post & _ & _ & Hr). exists (ToLower r).
    split; [done | by apply ToLower_letter].
  - by exists "z"%char.
Qed.

(** X2. [First] looks only at what follows the last dot: a package
    qualifier, or any text up to a dot, does not change its result. *)
Theorem First_after_last_dot (a b : string) :
  First (a +:+ "." +:+ b) = First b.
Proof.
  rewrite !First_unfold.
  change (a +:+ "." +:+ b) with (a +:+ String "." b).
  by rewrite lastPart_Split_app.
Qed.

Lemma runes_of_runes (l : list ascii) : runes (of_runes l) = l.
Proof. induction l as [|c l IH]; cbn; [done | by rewrite IH]. Qed.

Lemma of_runes_runes (s : string) : of_runes (runes s) = s.
Proof. induction s as [|c s IH]; cbn; [done | by rewrite IH]. Qed.

Lemma length_runes (s : string) : length (runes s) = String.length s.
Proof. induction s as [|c s IH]; cbn; [done | by rewrite IH]. Qed.

Lemma filter_all (P : ascii -> bool) (l : list ascii) :
  Forall (fun x => P x = true) l -> List.filter P l = l.
Proof.
  induction 1 as [|x l Hx _ IH]; cbn; [done|]. by rewrite Hx, IH.
Qed.

Lemma filter_Forall (P : ascii -> bool) (l : list ascii) :
  Forall (fun x => P x = true) (List.filter P l).
Proof.
  induction l as [|x l IH]; cbn; [constructor|].
  destruct (P x) eqn:Hx; [by constructor | done].
Qed.

(** X3. [Clean] keeps exactly the letters, in order: its result has
    only letters and is no longer than its argument, a string of
    letters is unchanged, and cleaning twice is cleaning once. *)
Theorem Clean_letters (s : string) :
  Forall (fun r => IsLetter r = true) (runes (Clean s))
  /\ String.length (Clean s) <= String.length s
  /\ Clean (Clean s) = Clean s
  /\ (Clean s = s <-> Forall (fun r => IsLetter r = true) (runes s)).
Proof.
  unfold Clean. rewrite !runes_of_runes. split_and!.
  - apply filter_Forall.
  - rewrite <- !length_runes, runes_of_runes. apply filter_length_le.
  - by rewrite (filter_all _ _ (filter_Forall IsLetter (runes s))).
  - split.
    + intros H. rewrite <- H at 1. rewrite runes_of_runes. apply filter_Forall.
    + intros H. rewrite filter_all by done. apply of_runes_runes.
Qed.

Lemma lowerName_unfold (s : string) :
  lowerName s =
    (of_runes (List.map ToLower (runes (Clean (lastPart (Split s "."))))),
     Clean (lastPart (Split s "."))).
Proof.
  unfold lowerName. pose proof (Split_nonempty s ".") as H.
  by destruct (Split s ".").
Qed.

(** X4. The name [Short] starts from is never empty and never longer
    than three runes, and each of its runes is what [ToLower] gives
    for some letter: it is ["err"], ["ctx"], the lowercased
    letters-only type name when that has at most three runes, or the
    one rune of [First].  (Whether such a rune is itself lowercase
    depends on the letter; the statement does not say so.) *)
Theorem shortCandidate_shape (t : rtype) :
  1 <= String.length (shortCandidate t) <= 3
  /\ Forall (fun r => exists x, IsLetter x = true /\ r = ToLower x)
       (runes (shortCandidate t)).
Proof.
  assert (Hfix : forall x, IsLetter x = true -> ToLower x = x ->
                   exists y, IsLetter y = true /\ x = ToLower y)
    by (intros x Hl Hx; by exists x).
  unfold shortCandidate.
  destruct (packageAndName (stripPtrSlice t)) as [pkg name].
  destruct (tError t).
  { split; [cbn; lia|]. repeat constructor; by apply Hfix. }
  destruct (tCtx t).
  { split; [cbn; lia|]. repeat constructor; by apply Hfix. }
  rewrite lowerName_unfold.
  set (clean := Clean (lastPart (Split name "."))).
  set (n := of_runes (List.map ToLower (runes clean))).
  destruct (Nat.leb (String.length n) 3 && negb (String.eqb n clean)
            && negb (String.eqb n pkg)) eqn:Hc.
  - apply andb_prop in Hc as [Hc _]. apply andb_prop in Hc as [Hlen Hne].
    apply Nat.leb_le in Hlen. apply negb_true_iff, String.eqb_neq in Hne.
    split.
    + split; [|done]. destruct n eqn:En; [|cbn; lia]. exfalso. apply Hne.
      subst n. apply (f_equal runes) in En. rewrite runes_of_runes in En.
      cbn in En. apply map_eq_nil in En.
      rewrite <- (of_runes_runes clean), En. reflexivity.
    + subst n. rewrite runes_of_runes. apply Forall_forall.
      intros r Hr%list_elem_of_In%in_map_iff. destruct Hr as (x & <- & Hx).
      exists x. split; [|done].
      pose proof (filter_Forall IsLetter (runes (lastPart (Split name ".")))) as Hall.
      rewrite Forall_forall in Hall. apply Hall. apply list_elem_of_In.
      subst clean. unfold Clean in Hx. by rewrite runes_of_runes in Hx.
  - rewrite First_unfold.
    pose proof (find_first IsLetter (runes (lastPart (Split name ".")))) as H.
    destruct (List.find IsLetter _) as [r|].
    + destruct H as (pre & post & _ & _ & Hr).
      split; [cbn; lia|]. repeat constructor. by exists r.
    + split; [cbn; lia|]. repeat constructor. by apply Hfix.
Qed.

(** ** [Short] and [Method] *)

(** X5. For every type and scope [Short] returns a name that is not in
    the scope and adds exactly that name to it.  The name is the first
    free one of the candidate, candidate1, candidate2, ...; its index
    is at most the size of the scope, so the search of the Go loop
    ends, and every bound above that size gives the same name. *)
Theorem Short_fresh (t : rtype) (cur : scope) :
  let name := (Short t cur).1 in
  (name ∉ cur)
  /\ (Short t cur).2 = {[name]} ∪ cur
  /\ (exists c, c <= size cur
        /\ name = candidate (shortCandidate t) c
        /\ forall j, j < c -> candidate (shortCandidate t) j ∈ cur)
  /\ (forall fuel, size cur < fuel ->
        uniqueName (shortCandidate t) cur fuel (shortCandidate t) 1 = name).
Proof.
  cbv zeta. destruct (Short_spec t cur) as (c & -> & Hfree & Hlt). cbn [fst snd].
  split_and!; try done.
  - exists c. split_and!; try done. by apply (candidates_taken_size (shortCandidate t) cur).
  - intros fuel Hfuel.
    destruct (uniqueName_from (shortCandidate t) cur fuel 0) as (c' & _ & Hu & Hfree' & Hlt');
      [intros j Hj; lia | lia |].
    change (candidate (shortCandidate t) 0) with (shortCandidate t) in Hu.
    rewrite Hu. f_equal.
    destruct (Nat.lt_trichotomy c' c) as [H|[H|H]]; [|done|].
    + by apply Hlt in H.
    + by apply Hlt' in H.
Qed.

Lemma nameArgs_separators (ts : list rtype) (cur : scope) :
  Sep <$> (nameArgs ts cur).1 = separators (length ts).
Proof.
  revert cur. induction ts as [|t ts IH]; intros cur; [done|].
  rewrite nameArgs_cons. cbn [fst fmap list_fmap Sep length separators].
  change (list_fmap Arg string Sep) with (fmap (M:=list) Sep).
  rewrite IH. by destruct ts.
Qed.

(** X6. [Method] gives every argument but the last of a list the
    separator [", "] and the last one the empty separator, for the
    inputs and for the outputs, and keeps one argument per type. *)
Theorem Method_separators (recName : string) (ft : RMethodOf rtype) :
  let m := MethodOf recName ft in
  Sep <$> Inputs m = separators (length (mIn ft))
  /\ Sep <$> Outputs m = separators (length (mOut ft))
  /\ length (Inputs m) = length (mIn ft)
  /\ length (Outputs m) = length (mOut ft).
Proof.
  cbv zeta. rewrite MethodOf_unfold. cbn [Inputs Outputs].
  split_and!; try apply nameArgs_separators.
  - rewrite <- (proj1 (nameArgs_spec (mIn ft) {[recName]})) at 2.
    by rewrite length_fmap.
  - rewrite <- (proj1 (nameArgs_spec (mOut ft) (nameArgs (mIn ft) {[recName]}).2)) at 2.
    by rewrite length_fmap.
Qed.

(** ** [packageAndName] *)

Lemma Split_no_sep (s : string) (sep : ascii) :
  sep ∉ runes s -> Split s sep = [s].
Proof.
  induction s as [|c s IH]; intros Hno; [done|].
  cbn [Split runes] in *. apply not_elem_of_cons in Hno as [Hc Hs].
  rewrite decide_False by done. by rewrite IH.
Qed.

(** X7. For a type with a package path whose string is a package name
    without a dot, a dot and a rest, [packageAndName] returns that
    package name and the rest up to its first dot: the whole rest when
    it has no dot, and a cut-off name when it has one. *)
Theorem packageAndName_qualified (t : rtype) (pkg rest : string) :
  tPkgPath t ≠ "" ->
  tString t = pkg +:+ "." +:+ rest ->
  "."%char ∉ runes pkg ->
  packageAndName t = (pkg, hd "" (Split rest "."))
  /\ ("."%char ∉ runes rest -> packageAndName t = (pkg, rest))
  /\ (forall a b, rest = a +:+ "." +:+ b -> "."%char ∉ runes a ->
        packageAndName t = (pkg, a)).
Proof.
  intros Hpath Hstr Hpkg.
  assert (H : packageAndName t = (pkg, hd "" (Split rest "."))).
  { unfold packageAndName. rewrite decide_False by done. rewrite Hstr.
    change (pkg +:+ "." +:+ rest) with (pkg +:+ String "." rest).
    rewrite Split_app_sep by done.
    pose proof (Split_nonempty rest ".") as Hne. by destruct (Split rest "."). }
  split_and!; [done | |].
  - intros Hrest. by rewrite H, Split_no_sep.
  - intros a b -> Ha. rewrite H.
    change (a +:+ "." +:+ b) with (a +:+ String "." b).
    by rewrite Split_app_sep.
Qed.

Lemma packageAndName_qualified_witness :
  (tPkgPath Sample.Request ≠ ""
   /\ tString Sample.Request = "rpc" +:+ "." +:+ "Request"
   /\ "."%char ∉ runes "rpc")
  /\ packageAndName Sample.Request = ("rpc", hd "" (Split "Request" ".")).
Proof.
  assert (H1 : tPkgPath Sample.Request ≠ "") by discriminate.
  assert (H3 : "."%char ∉ runes "rpc")
    by (apply (bool_decide_unpack _); vm_compute; exact I).
  split; [by split_and!|].
  exact (proj1 (packageAndName_qualified Sample.Request "rpc" "Request" H1 eq_refl H3)).
Defined.

(** ** [Diff] *)

Lemma diffFrom_nonempty (n : string) (i : nat) (a b : list Arg) :
  Forall (fun d => d ≠ "") (diffFrom n i a b).
Proof.
  revert i b. induction a as [|x a IH]; intros i [|y b]; cbn [diffFrom];
    try constructor.
  case_decide as Hd; [|apply IH]. constructor; [|apply IH].
  intros [_ Hs]%append_eq_empty. discriminate Hs.
Qed.

Lemma diffFrom_nil_iff (n : string) (i : nat) (a b : list Arg) :
  length a = length b ->
  diffFrom n i a b = [] <-> typeStrings a = typeStrings b.
Proof.
  revert i b. induction a as [|x a IH]; intros i [|y b] Hlen; try done.
  cbn [diffFrom typeStrings fmap list_fmap]. injection Hlen as Hlen.
  specialize (IH (S i) b Hlen). unfold typeStrings in IH.
  destruct (decide (tString (aType x) ≠ tString (aType y))) as [Hne|Heq].
  - split; [done|]. intros [= Hxy _]. done.
  - apply dec_stable in Heq. rewrite Heq, IH. split; [by intros ->|by intros [= ->]].
Qed.

Lemma diff_empty_iff (n : string) (a b : list Arg) :
  diff n a b = "" <-> typeStrings a = typeStrings b.
Proof.
  unfold diff. destruct (decide (length a ≠ length b)) as [Hne|Heq].
  - split; [discriminate|]. intros H. exfalso. apply Hne.
    apply (f_equal length) in H. unfold typeStrings in H. by rewrite !length_fmap in H.
  - apply dec_stable in Heq.
    rewrite (Join_empty_iff _ "; " (diffFrom_nonempty n 0 a b)).
    by apply diffFrom_nil_iff.
Qed.

Lemma Diff_nil_iff (m other : Method) :
  Diff m other = "" <->
    Name m = Name other
    /\ typeStrings (Inputs m) = typeStrings (Inputs other)
    /\ typeStrings (Outputs m) = typeStrings (Outputs other).
Proof.
  unfold Diff.
  destruct (decide (Name m ≠ Name other)) as [Hne|Heq].
  - split; [discriminate | by intros [? _]].
  - apply dec_stable in Heq.
    pose proof (diff_empty_iff "input" (Inputs m) (Inputs other)) as Hi.
    pose proof (diff_empty_iff "output" (Outputs m) (Outputs other)) as Ho.
    destruct (decide (diff "input" (Inputs m) (Inputs other) ≠ ""
                      /\ diff "output" (Outputs m) (Outputs other) ≠ "")) as [[Ha Hb]|Hn].
    + split.
      * intros [? _]%append_eq_empty. done.
      * intros (_ & H1 & _). by apply Hi in H1.
    + split.
      * intros [H1 H2]%append_eq_empty. split_and!; [done | by apply Hi | by apply Ho].
      * intros (_ & H1 & H2). apply Hi in H1. apply Ho in H2. by rewrite H1, H2.
Qed.

(** X8. [Diff] returns the empty string exactly when the two methods
    have the same name and, position by position, the same type
    strings for their inputs and for their outputs; so a method has no
    diff with itself, and argument names, separators and comments never
    matter. *)
Theorem Diff_empty_iff (m other : Method) :
  (Diff m other = "" <->
     Name m = Name other
     /\ typeStrings (Inputs m) = typeStrings (Inputs other)
     /\ typeStrings (Outputs m) = typeStrings (Outputs other))
  /\ Diff m m = "".
Proof. split; [apply Diff_nil_iff | by apply Diff_nil_iff]. Qed.

(** ** [toMap] and the receiver *)

Lemma lastNamed_snoc (k : string) (ms : list Method) (m : Method) :
  lastNamed k (ms ++ [m]) = if decide (Name m = k) then Some m else lastNamed k ms.
Proof. unfold lastNamed. by rewrite fold_left_app. Qed.

(** X9. Looking a name up in [toMap] of a list gives the last method of
    the list with that name: nothing when no method has it, and the
    later of two methods of the same name. *)
Theorem toMap_lookup_last (ms : list Method) (k : string) :
  toMap ms !! k = lastNamed k ms
  /\ (toMap ms !! k = None <-> k ∉ Name <$> ms)
  /\ (forall m, toMap (ms ++ [m]) !! Name m = Some m).
Proof.
  split_and!.
  - induction ms as [|m ms IH] using rev_ind; [by apply lookup_empty|].
    rewrite toMap_snoc, lastNamed_snoc. destruct (decide (Name m = k)) as [->|Hne].
    + by rewrite lookup_insert_eq.
    + by rewrite lookup_insert_ne.
  - apply toMap_lookup_None.
  - intros m. by rewrite toMap_snoc, lookup_insert_eq.
Qed.

(** X10. Dropping the receiver never returns an error: it panics with
    a slice-bounds failure exactly when some method has no input, and
    otherwise returns the methods in order, each with its first input
    removed and its name, outputs and comment as they were. *)
Theorem stripReceiver_outcome (ms : list Method) :
  match stripReceiver ms with
  | Ret em =>
      Forall (fun m => Inputs m ≠ []) ms
      /\ em = (fun m => withInputs (tail (Inputs m)) m) <$> ms
      /\ Name <$> em = Name <$> ms
      /\ Outputs <$> em = Outputs <$> ms
      /\ Comment <$> em = Comment <$> ms
  | Err _ => False
  | Panic p => p = "slice bounds out of range" /\ Exists (fun m => Inputs m = []) ms
  end.
Proof.
  induction ms as [|m ms IH]; [by split_and!; try constructor|].
  rewrite stripReceiver_cons. destruct (Inputs m) as [|a ins] eqn:Hm.
  - split; [done|]. by constructor.
  - destruct (stripReceiver ms) as [rest|e|p]; [|done|].
    + destruct IH as (Hall & -> & Hn & Ho & Hc). rewrite !fmap_cons, Hm.
      split_and!; try done.
      * constructor; [by rewrite Hm | done].
      * by rewrite Hn.
      * by rewrite Ho.
      * by rewrite Hc.
    + destruct IH as [-> Hex]. split; [done|]. by apply Exists_cons_tl.
Qed.

(** ** The order of the reconciliation loop *)

(** X11. The loop of [handleExisting] ranges over a Go map, whose
    order is not fixed.  On options whose maps are not nil, every order
    of the entries of the required-method map gives the same blacklist,
    the same comments and the same options. *)
Theorem range_order_irrelevant (eMap rMap : gmap string Method)
    (entries : list (string * Method)) (opts : GenOpts)
    (bl : gset string) (cm : gmap string string) :
  entries ≡ₚ map_to_list rMap ->
  MethodBlacklist opts = Some bl -> Comments opts = Some cm ->
  reconcile eMap entries opts = reconcile eMap (map_to_list rMap) opts.
Proof.
  intros Hperm Hbl Hcm. symmetry.
  apply (reconcile_Permutation eMap _ _ opts bl cm); try done.
  apply NoDup_fst_map_to_list.
Qed.

Lemma range_order_irrelevant_witness :
  (reverse (map_to_list SampleMaps.rMap) ≡ₚ map_to_list SampleMaps.rMap
   /\ MethodBlacklist SampleRun.opts = Some ∅ /\ Comments SampleRun.opts = Some ∅)
  /\ reconcile SampleMaps.eMap (reverse (map_to_list SampleMaps.rMap)) SampleRun.opts
     = reconcile SampleMaps.eMap (map_to_list SampleMaps.rMap) SampleRun.opts.
Proof.
  split; [split_and!; [apply reverse_Permutation | reflexivity | reflexivity]|].
  exact (range_order_irrelevant SampleMaps.eMap SampleMaps.rMap
           (reverse (map_to_list SampleMaps.rMap)) SampleRun.opts ∅ ∅
           (reverse_Permutation _) eq_refl eq_refl).
Defined.

(** ** An existing type that already implements the interface *)

Lemma NoDup_fmap_elem {A B : Type} (f : A -> B) (l : list A) (x y : A) :
  NoDup (f <$> l) -> x ∈ l -> y ∈ l -> f x = f y -> x = y.
Proof.
  induction l as [|a l IH]; intros Hnd Hx Hy Hf; [by apply elem_of_nil in Hx|].
  rewrite fmap_cons in Hnd. apply NoDup_cons in Hnd as [Ha Hnd].
  apply elem_of_cons in Hx as [->|Hx]; apply elem_of_cons in Hy as [->|Hy]; try done.
  - exfalso. apply Ha. rewrite Hf. apply list_elem_of_fmap. by exists y.
  - exfalso. apply Ha. rewrite <- Hf. apply list_elem_of_fmap. by exists x.
  - by apply IH.
Qed.

Lemma typeStrings_aType (a : list Arg) : typeStrings a = tString <$> (aType <$> a).
Proof. unfold typeStrings. by rewrite <- list_fmap_compose. Qed.

Lemma omap_all_None {A B : Type} (f : A -> option B) (l : list A) :
  Forall (fun x => f x = None) l -> omap f l = [].
Proof. induction 1 as [|x l Hx _ IH]; cbn; [done|]. by rewrite Hx. Qed.

Lemma elem_of_Methods_names (opts : GenOpts) (it : rtype) (ft : RMethodOf rtype) :
  ft ∈ tMethods it -> blacklisted opts (mName ft) = false ->
  mName ft ∈ Name <$> Methods opts it.
Proof.
  intros Hft Hb. apply list_elem_of_fmap. exists (methodFor opts ft).
  split; [by rewrite Name_methodFor|]. apply elem_of_Methods. by exists ft.
Qed.

(** X12. When every method of the interface has a namesake in the
    existing type with the same input types after the receiver and the
    same output types, [handleExisting] puts every method name of the
    interface in the blacklist, leaves the comments as they were, and
    [Methods] then lists nothing to generate. *)
Theorem handleExisting_all_satisfied (opts : GenOpts) (et : rtype)
    (bl : gset string) (cm : gmap string string) :
  Existing opts = Some et ->
  ImplName opts = "" -> PkgName opts = "" ->
  MethodBlacklist opts = Some bl -> Comments opts = Some cm ->
  Forall (fun m => mIn m ≠ []) (tMethods et) ->
  NoDup (mName <$> tMethods (Inter opts)) ->
  NoDup (mName <$> tMethods et) ->
  Forall (fun ft => exists fe, fe ∈ tMethods et /\ mName fe = mName ft
            /\ tString <$> tail (mIn fe) = tString <$> mIn ft
            /\ tString <$> mOut fe = tString <$> mOut ft)
         (tMethods (Inter opts)) ->
  exists o',
    handleExisting opts = (o', Ret tt)
    /\ MethodBlacklist o' = Some (bl ∪ list_to_set (mName <$> tMethods (Inter opts)))
    /\ Comments o' = Some cm
    /\ Methods o' (Inter o') = [].
Proof.
  intros Hex Himpl Hpkg Hbl Hcm Hrecv Hnd Hnde Hall.
  pose proof (stripReceiver_Methods opts et Hrecv) as Hem.
  destruct (handleExisting_run opts et _ bl cm Hex Himpl Hpkg Hbl Hcm Hem)
    as (o' & bl' & cm' & Hrun & _ & _ & (Hinter & _) & Hbl' & Hcm' & Hin & Hout).
  set (em := (fun m => withInputs (tail (Inputs m)) m) <$> Methods opts et) in *.
  rewrite Forall_forall in Hall.
  (* every required method that is matched is satisfied *)
  assert (Hsat : forall ft, ft ∈ tMethods (Inter opts) ->
            blacklisted opts (mName ft) = false ->
            decision (toMap em) (methodFor opts ft) = Satisfied).
  { intros ft Hft Hb. destruct (Hall ft Hft) as (fe & Hfe & Hname & Hi & Ho).
    unfold decision. rewrite Name_methodFor.
    destruct (toMap em !! mName ft) as [w|] eqn:Hw.
    - destruct (existing_lookup opts et em _ w Hem Hw) as (_ & fe' & Hfe' & Hn' & Hi' & Ho').
      assert (fe' = fe) as -> by (apply (NoDup_fmap_elem mName (tMethods et)); congruence).
      rewrite decide_True; [done|]. apply Diff_nil_iff.
      destruct (Inputs_methodFor opts ft) as [Hti Hto].
      apply toMap_lookup_Some in Hw as [_ Hwn].
      rewrite Name_methodFor, !typeStrings_aType, Hi', Ho', Hti, Hto. done.
    - exfalso. apply toMap_lookup_None in Hw. apply Hw.
      subst em. rewrite <- list_fmap_compose.
      rewrite <- Hname. rewrite <- Hname in Hb.
      by apply (elem_of_Methods_names opts et fe). }
  assert (Hkey : forall k,
            (k ∈ bl' <-> k ∈ bl ∨ k ∈ mName <$> tMethods (Inter opts))
            /\ cm' !! k = cm !! k).
  { intros k. destruct (toMap (Methods opts (Inter opts)) !! k) as [v|] eqn:Hk.
    - pose proof Hk as [Hv Hvn]%toMap_lookup_Some.
      apply elem_of_Methods in Hv as (ft & Hft & Hb & ->).
      rewrite Name_methodFor in Hvn. subst k.
      specialize (Hin _ _ Hk). rewrite (Hsat ft Hft Hb) in Hin. destruct Hin as [Hi Hc].
      split; [|done]. split; [|done]. intros _. right.
      apply list_elem_of_fmap. by exists ft.
    - destruct (Hout k Hk) as [Hiff Hc]. split; [|done]. rewrite Hiff.
      split; [by left|]. intros [?|(ft & -> & Hft)%list_elem_of_fmap]; [done|].
      rewrite (required_lookup opts ft Hnd Hft) in Hk.
      destruct (blacklisted opts (mName ft)) eqn:Hb; [|done].
      unfold blacklisted in Hb. rewrite Hbl in Hb. by apply bool_decide_eq_true in Hb. }
  assert (Hbleq : bl' = bl ∪ list_to_set (mName <$> tMethods (Inter opts))).
  { apply set_eq. intros k. rewrite (proj1 (Hkey k)). set_solver. }
  assert (Hcmeq : cm' = cm) by (apply map_eq; intros k; apply Hkey).
  exists o'. split_and!; [done | by rewrite Hbl', Hbleq | by rewrite Hcm', Hcmeq |].
  rewrite Methods_omap. apply omap_all_None. apply Forall_forall. intros ft Hft.
  rewrite Hinter in Hft. unfold blacklisted. rewrite Hbl', Hbleq.
  rewrite bool_decide_eq_true_2; [done|].
  apply elem_of_union. right. apply elem_of_list_to_set, list_elem_of_fmap. by exists ft.
Qed.

Lemma handleExisting_all_satisfied_witness :
  (Existing SampleFull.opts = Some SampleFull.File
   /\ ImplName SampleFull.opts = "" /\ PkgName SampleFull.opts = ""
   /\ MethodBlacklist SampleFull.opts = Some ∅ /\ Comments SampleFull.opts = Some ∅
   /\ Forall (fun m => mIn m ≠ []) (tMethods SampleFull.File)
   /\ NoDup (mName <$> tMethods (Inter SampleFull.opts))
   /\ NoDup (mName <$> tMethods SampleFull.File)
   /\ Forall (fun ft => exists fe, fe ∈ tMethods SampleFull.File /\ mName fe = mName ft
                /\ tString <$> tail (mIn fe) = tString <$> mIn ft
                /\ tString <$> mOut fe = tString <$> mOut ft)
             (tMethods (Inter SampleFull.opts)))
  /\ exists o',
    handleExisting SampleFull.opts = (o', Ret tt)
    /\ MethodBlacklist o'
       = Some (∅ ∪ list_to_set (mName <$> tMethods (Inter SampleFull.opts)))
    /\ Comments o' = Some ∅
    /\ Methods o' (Inter o') = [].
Proof.
  assert (H6 : Forall (fun m : RMethodOf rtype => mIn m ≠ []) (tMethods SampleFull.File))
    by (repeat (constructor; [discriminate|]); constructor).
  assert (H7 : NoDup (mName <$> tMethods (Inter SampleFull.opts)))
    by (apply (bool_decide_unpack _); vm_compute; exact I).
  assert (H8 : NoDup (mName <$> tMethods SampleFull.File))
    by (apply (bool_decide_unpack _); vm_compute; exact I).
  assert (H9 : Forall (fun ft => exists fe, fe ∈ tMethods SampleFull.File
                /\ mName fe = mName ft
                /\ tString <$> tail (mIn fe) = tString <$> mIn ft
                /\ tString <$> mOut fe = tString <$> mOut ft)
             (tMethods (Inter SampleFull.opts))).
  { constructor; [|constructor; [|constructor]].
    - exists SampleFull.close. split_and!; try reflexivity.
      apply list_elem_of_In. left. reflexivity.
    - exists SampleFull.read. split_and!; try reflexivity.
      apply list_elem_of_In. right. left. reflexivity. }
  split; [by split_and!|].
  exact (handleExisting_all_satisfied SampleFull.opts SampleFull.File ∅ ∅
           eq_refl eq_refl eq_refl eq_refl eq_refl H6 H7 H8 H9).
Defined.

(** ** [Generate]: panics, growth of the maps, reuse, and the import pass *)

(** On options whose maps are not nil, [handleExisting] panics only
    where it drops the receivers. *)
Lemma handleExisting_Panic_inv (opts : GenOpts) (bl : gset string)
    (cm : gmap string string) (p : string) :
  MethodBlacklist opts = Some bl -> Comments opts = Some cm ->
  (handleExisting opts).2 = Panic p ->
  exists et, Existing opts = Some et /\ stripReceiver (Methods opts et) = Panic p.
Proof.
  intros Hbl Hcm.
  destruct (Existing opts) as [et|] eqn:Hex.
  2: { unfold handleExisting. by rewrite Hex. }
  destruct (decide (ImplName opts = "")) as [Hi|Hi].
  2: { unfold handleExisting. by rewrite Hex, decide_True. }
  destruct (decide (PkgName opts = "")) as [Hp|Hp].
  2: { unfold handleExisting.
       by rewrite Hex, decide_False, decide_True by (done || by intros H; apply H). }
  destruct (stripReceiver (Methods opts et)) as [em|e|p'] eqn:Hem.
  - destruct (handleExisting_run opts et em bl cm Hex Hi Hp Hbl Hcm Hem)
      as (o' & ? & ? & -> & _). done.
  - unfold handleExisting.
    by rewrite Hex, Hem, !decide_False by (intros H; by apply H).
  - unfold handleExisting.
    rewrite Hex, Hem, !decide_False by (intros H; by apply H).
    intros [= ->]. by exists et.
Qed.

Lemma stripReceiver_Panic_inv (ms : list Method) (p : string) :
  stripReceiver ms = Panic p -> p = "slice bounds out of range".
Proof.
  induction ms as [|m ms IH]; [done|].
  rewrite stripReceiver_cons. destruct (Inputs m); [by intros [= <-]|].
  destruct (stripReceiver ms); [done | done | by intros [= <-]; apply IH].
Qed.

Lemma initMaps_idem (o : GenOpts) :
  is_Some (MethodBlacklist o) -> is_Some (Comments o) -> initMaps o = o.
Proof. intros [? Hb] [? Hc]. unfold initMaps. by rewrite Hb, Hc. Qed.

Section GenerateFurther.
Variable File : Type.
Variable ParseFile : string -> File + string.
Variable Fprint : File -> string + string.
Variable Process : string -> string + string.
Variable out : Writer.

Local Abbreviation Gen := (Generate File ParseFile Fprint Process out).

(** X13. [Generate] never ends in the panic of an assignment to an
    entry of a nil map, whatever options it is given: it replaces nil
    maps before [handleExisting] writes to them.  [handleExisting]
    alone, on the options of the second test case with their nil maps,
    does end in that panic. *)
Theorem Generate_nil_maps_safe (opts : GenOpts) (sink : string) :
  (Gen opts sink).2 ≠ Panic "assignment to entry in nil map"
  /\ (handleExisting Sample.opts2).2 = Panic "assignment to entry in nil map"
  /\ (handleExisting (initMaps Sample.opts2)).2 = Ret tt.
Proof.
  split; [|by vm_compute].
  destruct (initMaps_maps opts) as (Hb & Hc & _).
  unfold Generate. fold (initMaps opts).
  destruct (handleExisting (initMaps opts)) as [o [[]| |p']] eqn:Hh; cbn [snd]; [|done|].
  - destruct (ParseFile _); [|done]. destruct (Fprint _); [|done].
    assert (Hw : forall o1 bts p, (writeOut out o1 sink bts).2 ≠ Panic p).
    { intros o1 bts p. unfold writeOut. by destruct (out bts) as [n [e|]]. }
    destruct (NoGoImports _); [apply Hw|]. destruct (Process _); [apply Hw | done].
  - intros [= ->].
    destruct (handleExisting_Panic_inv (initMaps opts) _ _
                "assignment to entry in nil map" Hb Hc) as (et & _ & Hs).
    + by rewrite Hh.
    + by apply stripReceiver_Panic_inv in Hs.
Qed.
End GenerateFurther.

Lemma decision_not_Missing (eMap : gmap string Method) (v : Method) :
  decision eMap v ≠ Missing -> is_Some (eMap !! Name v).
Proof. unfold decision. destruct (eMap !! Name v); [by eexists | done]. Qed.

Section GenerateMaps.
Variable File : Type.
Variable ParseFile : string -> File + string.
Variable Fprint : File -> string + string.
Variable Process : string -> string + string.
Variable out : Writer.

Local Abbreviation Gen := (Generate File ParseFile Fprint Process out).

(** X14. [Generate] only adds to the caller's maps: every name in the
    blacklist stays there and every name with a comment keeps having
    one.  A name that enters the blacklist, or whose comment changes,
    was not blacklisted by the caller and names a method of both the
    interface and the existing type. *)
Theorem Generate_maps_grow (opts : GenOpts) (sink : string) :
  let o' := (Gen opts sink).1.1 in
  let bl := default ∅ (MethodBlacklist opts) in
  let cm := default ∅ (Comments opts) in
  exists bl' cm',
    MethodBlacklist o' = Some bl' /\ Comments o' = Some cm'
    /\ bl ⊆ bl'
    /\ dom cm ⊆ dom cm'
    /\ forall k, (k ∈ bl' /\ k ∉ bl) \/ cm' !! k ≠ cm !! k ->
         (k ∉ bl)
         /\ k ∈ mName <$> tMethods (Inter opts)
         /\ exists et, Existing opts = Some et /\ k ∈ mName <$> tMethods et.
Proof.
  cbv zeta. rewrite Generate_finalOpts.
  destruct (initMaps_maps opts) as (Hb & Hc & (_ & _ & Hinter & Hex & _)).
  pose proof (finalOpts_fields opts) as Hf. cbv zeta in Hf.
  destruct Hf as (_ & _ & _ & _ & _ & -> & -> & _).
  set (bl := default ∅ (MethodBlacklist opts)) in *.
  set (cm := default ∅ (Comments opts)) in *.
  destruct (handleExisting_cases (initMaps opts) _ _ Hb Hc)
    as [(-> & _)|(et & em & bl' & cm' & H)].
  { exists bl, cm. split_and!; try done. intros k [[? ?]|?]; done. }
  destruct H as (Hsome & _ & _ & Hem & _ & _ & _ & -> & -> & Hin & Hout).
  exists bl', cm'.
  assert (Hkey : forall k,
    ((k ∈ bl' <-> k ∈ bl) /\ cm' !! k = cm !! k)
    \/ ((k ∉ bl) /\ k ∈ mName <$> tMethods (Inter opts)
        /\ k ∈ mName <$> tMethods et
        /\ (k ∈ bl -> k ∈ bl') /\ (is_Some (cm !! k) -> is_Some (cm' !! k)))).
  { intros k. destruct (toMap (Methods (initMaps opts) (Inter (initMaps opts))) !! k)
      as [v|] eqn:Hk; [|left; by apply Hout].
    specialize (Hin _ _ Hk).
    apply toMap_lookup_Some in Hk as [Hv Hvn].
    apply elem_of_Methods in Hv as (ft & Hft & Hbk & ->).
    rewrite Name_methodFor in Hvn. subst k.
    destruct (decision (toMap em) (methodFor (initMaps opts) ft)) eqn:Hd;
      [left; exact Hin| |].
    all: right.
    all: assert (Hs : is_Some (toMap em !! Name (methodFor (initMaps opts) ft)))
           by (apply decision_not_Missing; by rewrite Hd).
    all: destruct Hs as [w Hw]; rewrite Name_methodFor in Hw.
    all: destruct (existing_lookup (initMaps opts) et em _ w Hem Hw)
           as (_ & fe & Hfe & Hfn & _).
    all: assert (Hnb : mName ft ∉ bl)
           by (unfold blacklisted in Hbk; rewrite Hb in Hbk;
               by apply bool_decide_eq_false in Hbk).
    all: assert (Hki : mName ft ∈ mName <$> tMethods (Inter opts))
           by (rewrite <- Hinter; apply list_elem_of_fmap; by exists ft).
    all: assert (Hke : mName ft ∈ mName <$> tMethods et)
           by (rewrite <- Hfn; apply list_elem_of_fmap; by exists fe).
    - (* mismatched *)
      destruct Hin as [Hiff Hcmk].
      split_and!; try done; try (intros ?; by apply Hiff);
        try (intros _; rewrite Hcmk; by eexists).
    - (* satisfied *)
      destruct Hin as [Hk Hcmk]. split_and!; try done. by rewrite Hcmk. }
  split_and!; try done.
  - intros k Hk. destruct (Hkey k) as [[Hiff _]|(_ & _ & _ & Himp & _)];
      [by apply Hiff | by apply Himp].
  - intros k [x Hx]%elem_of_dom. apply elem_of_dom.
    destruct (Hkey k) as [[_ ->]|(_ & _ & _ & _ & Hs)]; [by eexists | apply Hs; by eexists].
  - intros k Hchg. destruct (Hkey k) as [[Hiff Heq]|(Hnb & Hi & He & _)].
    + exfalso. destruct Hchg as [[H1 H2]|H3]; [by apply H2, Hiff | done].
    + split_and!; try done. exists et. split; [congruence | done].
Qed.

(** X15. Options that [Generate] has filled in from an existing type
    cannot be passed to [Generate] again: [ImplName] is now set, so the
    second call fails with the configuration error and writes nothing. *)
Theorem Generate_reuse_fails (opts : GenOpts) (sink sink2 : string) (et : rtype) :
  Existing opts = Some et ->
  ImplName opts = "" -> PkgName opts = "" ->
  Forall (fun m => mIn m ≠ []) (tMethods et) ->
  (existingTarget et).2 ≠ "" ->
  let o' := (Gen opts sink).1.1 in
  Gen o' sink2 = (o', sink2, Err "only one of ImplName and existing should be set.").
Proof.
  intros Hsome Himpl Hpkg Hrecv Hname. cbv zeta. rewrite Generate_finalOpts.
  destruct (initMaps_maps opts) as (Hb & Hc & (Hp & Hi & _ & Hex & _)).
  pose proof (finalOpts_fields opts) as Hf. cbv zeta in Hf.
  destruct Hf as (_ & G2 & _ & _ & _ & G6 & G7 & G8 & _).
  pose proof (handleExisting_frame (initMaps opts)) as Hfr. cbv zeta in Hfr.
  destruct Hfr as (_ & F2 & _).
  destruct (handleExisting_run (initMaps opts) et _ _ _
              (eq_trans Hex Hsome) (eq_trans Hi Himpl) (eq_trans Hp Hpkg) Hb Hc
              (stripReceiver_Methods (initMaps opts) et Hrecv))
    as (o1 & bl' & cm' & Hrun & _ & Him & _ & Hbl' & Hcm' & _).
  rewrite Hrun in G2, G6, G7, G8, F2. cbn [fst] in *.
  set (o' := finalOpts opts) in *.
  assert (Hinit : initMaps o' = o').
  { apply initMaps_idem; [rewrite G6, Hbl' | rewrite G7, Hcm']; by eexists. }
  unfold Generate. fold (initMaps o'). rewrite Hinit.
  unfold handleExisting. rewrite G2, F2, Hex, Hsome.
  rewrite decide_True by (by rewrite G8, Him). done.
Qed.

(** X16. With [NoGoImports] set, [Generate] never consults the import
    pass: its result is the same whatever [imports.Process] would do. *)
Theorem Generate_NoGoImports (opts : GenOpts) (sink : string)
    (Process' : string -> string + string) :
  NoGoImports opts = true ->
  Gen opts sink = Generate File ParseFile Fprint Process' out opts sink.
Proof.
  intros Hng. unfold Generate. fold (initMaps opts).
  destruct (initMaps_maps opts) as (_ & _ & (_ & _ & _ & _ & _ & Hg & _)).
  pose proof (handleExisting_frame (initMaps opts)) as Hfr. cbv zeta in Hfr.
  destruct Hfr as (_ & _ & _ & F4 & _).
  destruct (handleExisting (initMaps opts)) as [o [[]| |]]; [|done..].
  cbn [fst] in F4.
  destruct (ParseFile _); [|done]. destruct (Fprint _); [|done].
  assert (Ho : NoGoImports (if decide (PkgName o = "")
                 then setPkgName (packageAndName (Inter o)).1 o else o) = true).
  { destruct (decide (PkgName o = "")); cbn; congruence. }
  by rewrite Ho.
Qed.
End GenerateMaps.

Lemma Generate_reuse_fails_witness :
  (Existing Sample.opts2 = Some Sample.AlmostClientCodec
   /\ ImplName Sample.opts2 = "" /\ PkgName Sample.opts2 = ""
   /\ Forall (fun m => mIn m ≠ []) (tMethods Sample.AlmostClientCodec)
   /\ (existingTarget Sample.AlmostClientCodec).2 ≠ "")
  /\ let o' := (Generate string SampleIO.parse SampleIO.print SampleIO.process
                  SampleIO.fullWriter Sample.opts2 "").1.1 in
     Generate string SampleIO.parse SampleIO.print SampleIO.process
       SampleIO.fullWriter o' "kept"
     = (o', "kept", Err "only one of ImplName and existing should be set.").
Proof.
  assert (H4 : Forall (fun m : RMethodOf rtype => mIn m ≠ [])
                 (tMethods Sample.AlmostClientCodec))
    by (repeat (constructor; [discriminate|]); constructor).
  assert (H5 : (existingTarget Sample.AlmostClientCodec).2 ≠ "") by discriminate.
  split; [by split_and!|].
  exact (Generate_reuse_fails string SampleIO.parse SampleIO.print SampleIO.process
           SampleIO.fullWriter Sample.opts2 "" "kept" Sample.AlmostClientCodec
           eq_refl eq_refl eq_refl H4 H5).
Defined.

Lemma Generate_NoGoImports_witness :
  NoGoImports SampleIO.optsInt = true
  /\ Generate string SampleIO.parse SampleIO.print SampleIO.process
       SampleIO.fullWriter SampleIO.optsInt ""
     = Generate string SampleIO.parse SampleIO.print (fun _ => inr "no such package")
         SampleIO.fullWriter SampleIO.optsInt "".
Proof.
  split; [reflexivity|].
  exact (Generate_NoGoImports string SampleIO.parse SampleIO.print SampleIO.process
           SampleIO.fullWriter SampleIO.optsInt "" (fun _ => inr "no such package")
           eq_refl).
Defined.

(** ** [GetName] *)

(** X17. For a type built by pointers, slices, arrays, maps and
    channels from types outside the target package, [GetName] returns
    the type's own string: what is emitted in a signature is what
    [Diff] compares. *)
Theorem GetName_outside (p : string) (t : rtype) :
  outside p t -> GetName p t = tString t.
Proof.
  induction 1 as [s e c ms k Hs
                 |pkgPath pkg name e c ms k Hpath Hname Hpkg Hp Hdot
                 |s e c ms
                 |el e c ms _ IH|el e c ms _ IH|n el e c ms _ IH
                 |key el e c ms _ IHk _ IHe|d el e c ms _ IH _];
    cbn [GetName tString].
  - rewrite decide_True by done.
    change (packageAndName (RType s s "" e c ms k)) with ("", s). cbn [fst].
    by rewrite decide_True by (by left).
  - rewrite decide_True by done.
    assert (Hpn : (packageAndName (RType (pkg +:+ "." +:+ name) name pkgPath e c ms k)).1
                  = pkg).
    { unfold packageAndName. cbn [tPkgPath tString]. rewrite decide_False by done.
      change (pkg +:+ "." +:+ name) with (pkg +:+ String "." name).
      by rewrite Split_app_sep. }
    rewrite Hpn. rewrite decide_False by (intros [?|?]; done). reflexivity.
  - by rewrite decide_False by (intros H; by apply H).
  - rewrite decide_False by (intros H; by apply H). by rewrite IH.
  - rewrite decide_False by (intros H; by apply H). by rewrite IH.
  - rewrite decide_False by (intros H; by apply H). by rewrite IH.
  - rewrite decide_False by (intros H; by apply H). by rewrite IHk, IHe.
  - rewrite decide_False by (intros H; by apply H). by rewrite IH.
Qed.

Lemma GetName_outside_witness :
  outside "goimpl" (Sample.slice (Sample.ptr Sample.Request))
  /\ GetName "goimpl" (Sample.slice (Sample.ptr Sample.Request)) = "[]*rpc.Request".
Proof.
  assert (H : outside "goimpl" (Sample.slice (Sample.ptr Sample.Request))).
  { apply outside_slice, outside_ptr.
    apply (outside_named "goimpl" "net/rpc" "rpc" "Request"); try discriminate.
    apply (bool_decide_unpack _). vm_compute. exact I. }
  split; [exact H|].
  exact (GetName_outside "goimpl" (Sample.slice (Sample.ptr Sample.Request)) H).
Defined.

(** ** [parse] of the command *)

Lemma Split_length (s : string) (sep : ascii) :
  length (Split s sep) = S (Count s sep).
Proof.
  induction s as [|c s IH]; [done|]. cbn [Split Count].
  destruct (decide (c = sep)); cbn [length]; [by rewrite IH|].
  destruct (Split s sep); cbn [length] in *; done.
Qed.

Lemma Split_Join (s : string) (sep : ascii) :
  Join (Split s sep) (String sep "") = s.
Proof.
  induction s as [|c s IH]; [done|]. cbn [Split].
  pose proof (Split_nonempty s sep) as Hne.
  destruct (decide (c = sep)) as [->|Hc].
  - rewrite Join_cons. destruct (Split s sep) eqn:E; [done|].
    by rewrite append_empty_l, IH.
  - destruct (Split s sep) as [|h t]; [done|].
    rewrite Join_cons in *. destruct t; rewrite <- IH; [done|].
    by rewrite append_cons.
Qed.

Lemma Split_pieces (s : string) (sep : ascii) :
  Forall (fun piece => sep ∉ runes piece) (Split s sep).
Proof.
  induction s as [|c s IH]; cbn [Split].
  - constructor; [|constructor]. cbn. apply not_elem_of_nil.
  - destruct (decide (c = sep)).
    + constructor; [cbn; apply not_elem_of_nil | done].
    + pose proof (Split_nonempty s sep). destruct (Split s sep) as [|h t]; [done|].
      apply Forall_cons in IH as [Hh Ht]. constructor; [|done].
      cbn [runes]. by apply not_elem_of_cons.
Qed.

Lemma TrimPrefix_ptr (tp : string) :
  tp = (if decide (String.length (Cmd.TrimPrefix tp "*") ≠ String.length tp)
        then "*" else "") +:+ Cmd.TrimPrefix tp "*".
Proof.
  destruct tp as [|c r]; [done|]. cbn [Cmd.TrimPrefix].
  destruct (decide (c = "*"%char)) as [->|Hc].
  - rewrite decide_True by (cbn; lia). reflexivity.
  - by rewrite decide_False by (intros H; by apply H).
Qed.

(** X18. [parse] of the command trims white space, takes one leading
    star as the pointer mark and splits the rest at its dots.  With no
    dot the rest is the name and there is no package; with one dot it
    is package, dot, name; in both cases mark, package and name put
    back together give the trimmed argument, and neither part holds a
    dot.  With two dots or more [parse] fails, with a message that
    quotes the text after the star, and returns an empty result. *)
Theorem parse_outcome (tp : string) :
  let t := Cmd.TrimPrefix (Cmd.TrimSpace tp) "*" in
  let r := (Cmd.parse tp).1 in
  match (Cmd.parse tp).2 with
  | None =>
      Count t "." <= 1
      /\ (Cmd.ptr r = "*" \/ Cmd.ptr r = "")
      /\ Cmd.TrimSpace tp =
           Cmd.ptr r +:+
             (if decide (Count t "." = 0) then Cmd.name r
              else Cmd.pkg r +:+ "." +:+ Cmd.name r)
      /\ (Count t "." = 0 -> Cmd.pkg r = "")
      /\ ("."%char ∉ runes (Cmd.pkg r))
      /\ ("."%char ∉ runes (Cmd.name r))
  | Some e =>
      2 <= Count t "."
      /\ e = "failed to parse ``" +:+ t +:+ "`. Expected [package.]type."
      /\ r = Cmd.mkParsed "" "" ""
  end.
Proof.
  cbv zeta. unfold Cmd.parse.
  set (tp' := Cmd.TrimSpace tp). set (t := Cmd.TrimPrefix tp' "*").
  pose proof (Split_length t ".") as Hlen.
  pose proof (Split_Join t ".") as Hjoin.
  pose proof (Split_pieces t ".") as Hpieces.
  pose proof (TrimPrefix_ptr tp') as Hptr. fold t in Hptr.
  destruct (decide (String.length t ≠ String.length tp')) as [Hd|Hd];
    destruct (Split t ".") as [|p0 [|p1 [|p2 rest]]]; cbn [fst snd length] in *;
    try lia.
  all: try (injection Hlen as Hlen; rewrite <- Hlen).
  all: cbn [Cmd.ptr Cmd.pkg Cmd.name Join] in *.
  all: try (apply Forall_cons in Hpieces as [Hp0 Hp1]).
  all: try (apply Forall_cons in Hp1 as [Hp1 _]).
  all: try rewrite (decide_True (P := 0 = 0)) by done.
  all: try rewrite (decide_False (P := 1 = 0)) by done.
  all: try rewrite Hjoin.
  all: split_and!; try done; try lia; auto.
  all: first [by rewrite <- Hjoin | cbn; apply not_elem_of_nil].
Qed.

Example parse_sample :
  Cmd.parse " *pkg.impl " = (Cmd.mkParsed "*" "pkg" "impl", None)
  /\ Cmd.parse "impl" = (Cmd.mkParsed "" "" "impl", None)
  /\ Cmd.parse "a.b.c" =
       (Cmd.mkParsed "" "" "", Some "failed to parse ``a.b.c`. Expected [package.]type.").
Proof. vm_compute. done. Qed.

(** ** What [Methods] lists *)

(** X19. [Methods] lists the methods of the type that are not
    blacklisted, in the type's order and once each; every listed method
    has one argument per input and output type of its method, in
    order, and carries the caller's comment for its name, or none. *)
Theorem Methods_content (opts : GenOpts) (it : rtype) :
  mMethod <$> Methods opts it =
    List.filter (fun ft => negb (blacklisted opts (mName ft))) (tMethods it)
  /\ Forall (fun m =>
       aType <$> Inputs m = mIn (mMethod m)
       /\ aType <$> Outputs m = mOut (mMethod m)
       /\ Comment m = default "" (commentOf opts (Name m)))
     (Methods opts it).
Proof.
  split.
  - rewrite Methods_omap. induction (tMethods it) as [|ft l IH]; [done|].
    cbn [omap list_omap List.filter].
    destruct (blacklisted opts (mName ft)); cbn [negb]; [done|].
    rewrite fmap_cons, IH. f_equal.
    unfold methodFor. rewrite MethodOf_unfold. by destruct (commentOf opts (mName ft)).
  - apply Forall_forall. intros m (ft & _ & _ & ->)%elem_of_Methods.
    destruct (Inputs_methodFor opts ft) as [Hi Ho].
    assert (Hm : mMethod (methodFor opts ft) = ft).
    { unfold methodFor. rewrite MethodOf_unfold. by destruct (commentOf opts (mName ft)). }
    rewrite Hm, Name_methodFor. split_and!; try done.
    unfold methodFor. rewrite MethodOf_unfold. by destruct (commentOf opts (mName ft)).
Qed.
